(** * Mandala Portfolio Builder: pattern generator and SVG export

    A shallow embedding of the two components of the application that carry
    its logic: the component [MandalaCanvas], which derives the list of SVG
    primitives from a [MandalaSpec], and the callback [exportSVG], which
    rebuilds a standalone document from the mounted render and hands it to
    the browser as a download.

    JavaScript numbers are kept behind an interface ([JsNumber]): the
    generator is written once, with the operations in the order the source
    applies them, and is then read in two instances: a term algebra, which
    keeps the expressions as they are written, and binary64, the numbers the
    source runs on, with the engine's cosine and sine as parameters. *)

From Stdlib Require Import List ZArith QArith Lia Bool.
From Stdlib Require Import String Ascii DecimalString.
From Stdlib Require Floats Uint63 DecimalPos DecimalZ DecimalNat Finite.
From Stdlib Require Import Qabs Qround.
Import ListNotations.

Set Implicit Arguments.

(** ** Numbers *)

Class JsNumber (num : Type) : Type := {
  lit : Q -> num;               (* a numeric literal, or an integer counter *)
  add : num -> num -> num;
  sub : num -> num -> num;
  mul : num -> num -> num;
  div : num -> num -> num;
  neg : num -> num;
  Math_cos : num -> num;
  Math_sin : num -> num;
  Math_PI : num
}.

Declare Scope js_scope.
Delimit Scope js_scope with js.
Infix "+" := add : js_scope.
Infix "-" := sub : js_scope.
Infix "*" := mul : js_scope.
Infix "/" := div : js_scope.
Notation "- x" := (neg x) : js_scope.

(** An integer held in a number. *)
Definition int {num} `{JsNumber num} (z : Z) : num := lit (inject_Z z).

(** The expressions of the source, uninterpreted. *)
Inductive term : Type :=
| TLit (q : Q)
| TAdd (a b : term)
| TSub (a b : term)
| TMul (a b : term)
| TDiv (a b : term)
| TNeg (a : term)
| TCos (a : term)
| TSin (a : term)
| TPi.

#[export] Instance term_number : JsNumber term := {|
  lit := TLit; add := TAdd; sub := TSub; mul := TMul; div := TDiv;
  neg := TNeg; Math_cos := TCos; Math_sin := TSin; Math_PI := TPi
|}.

(** The same expressions in binary64, the numbers the source runs on.
    [Math.cos] and [Math.sin] are the engine's. An integer or a short decimal
    literal is the correctly rounded quotient of two integers that binary64
    holds exactly, and so is [Math.PI]. *)
Definition double_of_Z (z : Z) : PrimFloat.float :=
  match z with
  | Z0 => PrimFloat.of_uint63 (Uint63.of_Z 0)
  | Zpos _ => PrimFloat.of_uint63 (Uint63.of_Z z)
  | Zneg p => PrimFloat.opp (PrimFloat.of_uint63 (Uint63.of_Z (Zpos p)))
  end.

Definition double_of_Q (q : Q) : PrimFloat.float :=
  PrimFloat.div (double_of_Z (Qnum q)) (double_of_Z (Zpos (Qden q))).

Definition double_number (cos sin : PrimFloat.float -> PrimFloat.float)
  : JsNumber PrimFloat.float := {|
  lit := double_of_Q; add := PrimFloat.add; sub := PrimFloat.sub;
  mul := PrimFloat.mul; div := PrimFloat.div; neg := PrimFloat.opp;
  Math_cos := cos; Math_sin := sin;
  Math_PI := double_of_Q (884279719003555 # 281474976710656)
|}.

(** ** Data model *)

Inductive Symmetry : Type := radial | mirror.

Definition Symmetry_eqb (a b : Symmetry) : bool :=
  match a, b with
  | radial, radial | mirror, mirror => true
  | _, _ => false
  end.

Record MandalaSpec : Type := {
  segments : Z;
  symmetry : Symmetry;
  color : string;
  showWatermark : bool
}.

(** The range the segment slider allows ([min={3} max={48} step={1}]). *)
Definition valid_spec (s : MandalaSpec) : Prop := (3 <= segments s <= 48)%Z.

Definition with_segments (s : MandalaSpec) (n : Z) : MandalaSpec :=
  {| segments := n; symmetry := symmetry s; color := color s;
     showWatermark := showWatermark s |}.

(** [Math.max(min, Math.min(max, n))] on integers. *)
Definition clamp (n min max : Z) : Z := Z.max min (Z.min max n).

(** ** JSX elements *)

Section Elements.
Context {num : Type}.

Record point : Type := { x : num; y : num }.

(** The elements [MandalaCanvas] builds, with the props it gives them. The
    [points] prop of a polygon is kept as the list of the points it is
    formatted from: [`${cx},${cy} ${p1.x},${p1.y} ${p2.x},${p2.y}`]. *)
#[warnings="-register-all"]
Inductive element : Type :=
| svg (width height : Q) (viewBox aria_label role : string)
      (children : list element)
| defs (children : list element)
| rect (rx ry : Q) (width height : Q) (fill : string) (opacity : Q)
| polygon (key : string) (points : list point) (fill : string)
          (opacity : Q) (stroke : string)
| text (tx ty : num) (textAnchor fill : string) (opacity : Q)
       (fontSize : Q) (fontFamily : string) (style : list (string * string))
       (content : string)
| circle (id : option string) (ccx ccy r : num) (fill : string)
         (opacity : option Q).

Definition children_of (e : element) : list element :=
  match e with
  | svg _ _ _ _ _ c => c
  | defs c => c
  | _ => []
  end.

Definition is_polygon (e : element) : bool :=
  match e with polygon _ _ _ _ _ => true | _ => false end.
Definition is_text (e : element) : bool :=
  match e with text _ _ _ _ _ _ _ _ _ => true | _ => false end.
Definition is_circle (e : element) : bool :=
  match e with circle _ _ _ _ _ _ => true | _ => false end.

Definition count (p : element -> bool) (l : list element) : nat :=
  List.length (filter p l).
End Elements.

Arguments point : clear implicits.
Arguments element : clear implicits.

(** ** Loops and keys *)

(** [for (let i = ...; i < n; i++) body] from the current [i], for an
    integer [n]; [fuel] bounds the number of iterations. *)
Fixpoint for_loop {A : Type} (fuel : nat) (i n : Z) (body : Z -> A -> A)
    (st : A) : A :=
  match fuel with
  | O => st
  | S fuel' =>
      if (i <? n)%Z then for_loop fuel' (i + 1) n body (body i st) else st
  end.

(** [for (let i = 0; i < n; i++) body]: the loop leaves after
    [max(n, 0)] iterations, so that much fuel is enough
    ([for_loop_fuel]). *)
Definition for_range {A : Type} (n : Z) (body : Z -> A -> A) (init : A) : A :=
  for_loop (Z.to_nat n) 0 n body init.

(** [Array.prototype.push]. *)
Definition push {A : Type} (arr : list A) (a : A) : list A := arr ++ [a].

(** The decimal form of an integer, as a template literal prints it. *)
Definition string_of_Z (z : Z) : string := NilZero.string_of_int (Z.to_int z).

(** [`${prefix}-${i}`] *)
Definition key_of (prefix : string) (i : Z) : string :=
  (prefix ++ "-" ++ string_of_Z i)%string.

(** ** The generator *)

Section Generator.
Context {num : Type} `{JsNumber num}.
Local Open Scope js_scope.

Definition cx : num := int 210.
Definition cy : num := int 210.
Definition outerR : num := int 140.
Definition step (spec : MandalaSpec) : num := int 360 / int (segments spec).
Definition innerR : num := outerR * lit 0.6.

(** [a2]: degrees to radians. *)
Definition a2 (angle : num) : num := (angle * Math_PI) / int 180.

(** Body of the first loop (source lines 81-109). *)
Definition primary_body (spec : MandalaSpec) (i : Z)
    (st : list (element num) * list (element num))
  : list (element num) * list (element num) :=
  let (wedgesOuter, wedgesInner) := st in
  let a1 := int i * step spec in
  let aStart := a1 in
  let aEnd := a1 + step spec in
  let p1 := {| x := cx + Math_cos (a2 aStart) * outerR;
               y := cy + Math_sin (a2 aStart) * outerR |} in
  let p2 := {| x := cx + Math_cos (a2 aEnd) * outerR;
               y := cy + Math_sin (a2 aEnd) * outerR |} in
  let wedgesOuter :=
    push wedgesOuter
      (polygon (key_of "ow" i) [ {| x := cx; y := cy |}; p1; p2 ]
               (color spec) 0.8 "none") in
  let p1i := {| x := cx + Math_cos (a2 aStart) * innerR;
                y := cy + Math_sin (a2 aStart) * innerR |} in
  let p2i := {| x := cx + Math_cos (a2 aEnd) * innerR;
                y := cy + Math_sin (a2 aEnd) * innerR |} in
  let wedgesInner :=
    push wedgesInner
      (polygon (key_of "iw" i) [ {| x := cx; y := cy |}; p1i; p2i ]
               (color spec) 0.25 "none") in
  (wedgesOuter, wedgesInner).

(** Body of the mirror loop (source lines 116-141); the angles are
    converted in place, without [a2]. *)
Definition mirror_body (spec : MandalaSpec) (i : Z)
    (wedgesMirror : list (element num)) : list (element num) :=
  let a1 := (- int i) * step spec in
  let aEnd := (- (int i * step spec)) - step spec in
  let aStart := a1 in
  let p1 := {| x := cx + Math_cos ((aStart * Math_PI) / int 180) * outerR;
               y := cy + Math_sin ((aStart * Math_PI) / int 180) * outerR |} in
  let p2 := {| x := cx + Math_cos ((aEnd * Math_PI) / int 180) * outerR;
               y := cy + Math_sin ((aEnd * Math_PI) / int 180) * outerR |} in
  let wedgesMirror :=
    push wedgesMirror
      (polygon (key_of "mw" i) [ {| x := cx; y := cy |}; p1; p2 ]
               (color spec) 0.6 "none") in
  let p1i := {| x := cx + Math_cos ((aStart * Math_PI) / int 180) * innerR;
                y := cy + Math_sin ((aStart * Math_PI) / int 180) * innerR |} in
  let p2i := {| x := cx + Math_cos ((aEnd * Math_PI) / int 180) * innerR;
                y := cy + Math_sin ((aEnd * Math_PI) / int 180) * innerR |} in
  push wedgesMirror
    (polygon (key_of "mi" i) [ {| x := cx; y := cy |}; p1i; p2i ]
             (color spec) 0.15 "none").

(** The watermark label (lines 155-157). *)
Definition watermark_text : element num :=
  text cx cy "middle" "white" 0.15 42 "Inter"
     [ ("userSelect", "none") ]%string "MANDALA".

(** The centre dot (line 159). *)
Definition center_dot : element num :=
  circle None cx cy (int 6) "#fff" (Some 0.3).

(** [MandalaCanvas({ spec, watermark })]. A child that is [null] or
    [false] renders nothing, and an array child renders its items in
    order. *)
Definition MandalaCanvas (spec : MandalaSpec) (watermark : bool)
  : element num :=
  let '(wedgesOuter, wedgesInner) :=
    for_range (segments spec) (primary_body spec) ([], []) in
  let wedgesMirror :=
    if Symmetry_eqb (symmetry spec) mirror
    then for_range (segments spec) (mirror_body spec) []
    else [] in
  svg 420 420 "0 0 420 420" "Mandala canvas" "img"
    ([ defs [ circle (Some "grad"%string) cx cy outerR (color spec) None ];
       rect 0 0 420 420 "#111" 0.0 ]
     ++ wedgesOuter
     ++ wedgesInner
     ++ (if Symmetry_eqb (symmetry spec) mirror then wedgesMirror else [])
     ++ (if showWatermark spec then [ watermark_text ] else [])
     ++ [ center_dot ]).

(** The primitive sequence: the children of the returned [svg]. *)
Definition generate (spec : MandalaSpec) (watermark : bool)
  : list (element num) :=
  children_of (MandalaCanvas spec watermark).
End Generator.

(** ** Application state

    The [useState] cells of [App]. [MandalaCanvas] is called from the
    builder panel with [spec={spec} watermark={spec.showWatermark}]. *)

Module License.
Record t : Type := { id : string; name : string; terms : string }.
End License.

Module Asset.
Record t : Type :=
  { id : string; name : string; tags : list string; url : option string }.
End Asset.

Module CartItem.
Record t : Type :=
  { id : string; name : string; price : Q; quantity : Z }.
End CartItem.

Record SEOState : Type :=
  { title : string; description : string; keywords : string }.

Inductive Tab : Type := builder | licenses | store | cms | seo_tab.

Inductive CheckoutState : Type := idle | processing | success.

Record AppState : Type := {
  active : Tab;
  spec : MandalaSpec;
  license : option License.t;
  cart : list CartItem.t;
  storeOpen : bool;
  checkoutState : option CheckoutState;
  assets : list Asset.t;
  seo : SEOState
}.

(** The call at source line 381. *)
Definition canvas_of {num : Type} `{JsNumber num} (st : AppState)
  : element num :=
  MandalaCanvas (spec st) (showWatermark (spec st)).

(** The initial state of the builder (line 189). *)
Definition initial_spec : MandalaSpec :=
  {| segments := 12; symmetry := radial; color := "#ff7f50";
     showWatermark := true |}.

(** The same spec with mirror symmetry, and a plain spec with a given
    number of segments. *)
Definition mirror_spec : MandalaSpec :=
  {| segments := 12; symmetry := mirror; color := "#ff7f50";
     showWatermark := true |}.

Definition spec_of_segments (n : Z) : MandalaSpec :=
  {| segments := n; symmetry := radial; color := "#ff7f50";
     showWatermark := false |}.

(** ** The document tree *)

#[warnings="-register-all"]
Inductive node : Type :=
| Element (namespaceURI tagName : string) (attributes : list (string * string))
          (childNodes : list node)
| Text (data : string).

Definition attributes_of (n : node) : list (string * string) :=
  match n with Element _ _ a _ => a | Text _ => [] end.

Definition childNodes_of (n : node) : list node :=
  match n with Element _ _ _ c => c | Text _ => [] end.

Definition namespace_of (n : node) : option string :=
  match n with Element ns _ _ _ => Some ns | Text _ => None end.

Definition tagName_of (n : node) : option string :=
  match n with Element _ t _ _ => Some t | Text _ => None end.

Definition SVG_NS : string := "http://www.w3.org/2000/svg".

(** [document.createElementNS(ns, tag)] *)
Definition createElementNS (ns tag : string) : node := Element ns tag [] [].

(** [setAttribute]: the value of an attribute already present is replaced
    in place, a new attribute goes last. *)
Fixpoint set_attribute (attrs : list (string * string)) (name value : string)
  : list (string * string) :=
  match attrs with
  | [] => [(name, value)]
  | (n, v) :: rest =>
      if String.eqb n name then (n, value) :: rest
      else (n, v) :: set_attribute rest name value
  end.

Definition setAttribute (e : node) (name value : string) : node :=
  match e with
  | Element ns t a c => Element ns t (set_attribute a name value) c
  | Text d => Text d
  end.

(** [cloneNode(deep)]: a value is its own deep copy; a shallow copy has no
    children. *)
Definition cloneNode (deep : bool) (n : node) : node :=
  match n with
  | Element ns t a c => Element ns t a (if deep then c else [])
  | Text d => Text d
  end.

Definition firstChild (n : node) : option node :=
  match childNodes_of n with
  | [] => None
  | c :: _ => Some c
  end.

(** [parent.appendChild(c)] for a [c] that is the first child of [from]: the
    node leaves [from] and becomes the last child of [parent]. *)
Definition appendChild (parent c : node) : node :=
  match parent with
  | Element ns t a cs => Element ns t a (cs ++ [c])
  | Text d => Text d
  end.

Definition removeFirstChild (from : node) : node :=
  match from with
  | Element ns t a cs => Element ns t a (tl cs)
  | Text d => Text d
  end.

(** [while (clone.firstChild) outer.appendChild(clone.firstChild)]; the
    loop runs once per child of [clone], which [fuel] counts. *)
Fixpoint move_children (fuel : nat) (clone outer : node) : node * node :=
  match fuel with
  | O => (clone, outer)
  | S fuel' =>
      match firstChild clone with
      | None => (clone, outer)
      | Some c => move_children fuel' (removeFirstChild clone) (appendChild outer c)
      end
  end.

(** The standalone root [exportSVG] builds from the mounted element
    (source lines 235-246). *)
Definition export_document (el : node) : node :=
  let outer := createElementNS SVG_NS "svg" in
  let outer := setAttribute outer "xmlns" SVG_NS in
  let outer := setAttribute outer "width" "420" in
  let outer := setAttribute outer "height" "420" in
  let outer := setAttribute outer "viewBox" "0 0 420 420" in
  let clone := cloneNode true el in
  snd (move_children (List.length (childNodes_of clone)) clone outer).

(** ** The browser around [exportSVG] *)

Record Blob : Type := { parts : list string; type : string }.

Record Anchor : Type := { href : string; download : string }.

Inductive Event : Type :=
| CreateObjectURL (b : Blob) (url : string)
| BodyAppendChild (a : Anchor)
| Click (a : Anchor)
| Remove (a : Anchor)
| RevokeObjectURL (url : string).

(** What [exportSVG] can see change: the calls made so far, the object URLs
    that are live, the children it added to [document.body], and the
    downloads the browser was asked for (href and suggested filename). *)
Record World : Type := {
  events : list Event;
  objectURLs : list (string * Blob);
  body : list Anchor;
  downloads : list Anchor;
  next_url : nat
}.

Definition empty_world : World :=
  {| events := []; objectURLs := []; body := []; downloads := [];
     next_url := 0 |}.

Inductive outcome (A : Type) : Type :=
| Returned (a : A)
| Raised (error : string).
Arguments Raised {A} error.

(** A computation runs in a world and either returns or raises; the world
    it leaves behind is kept in both cases. *)
Definition M (A : Type) : Type := World -> outcome A * World.

Definition ret {A : Type} (a : A) : M A := fun w => (Returned a, w).

Definition bind {A B : Type} (m : M A) (k : A -> M B) : M B :=
  fun w =>
    match m w with
    | (Returned a, w') => k a w'
    | (Raised e, w') => (Raised e, w')
    end.

Notation "x <- m ;; k" := (bind m (fun x => k))
  (at level 61, m at next level, right associativity).
Notation "m ;; k" := (bind m (fun _ => k))
  (at level 61, right associativity).

Definition log (e : Event) : M unit :=
  fun w => (Returned tt,
            {| events := events w ++ [e]; objectURLs := objectURLs w;
               body := body w; downloads := downloads w;
               next_url := next_url w |}).

Definition url_of (n : nat) : string :=
  ("blob:" ++ NilZero.string_of_uint (Nat.to_uint n))%string.

(** [URL.createObjectURL(blob)] *)
Definition createObjectURL (b : Blob) : M string :=
  fun w =>
    let url := url_of (next_url w) in
    (Returned url,
     {| events := events w ++ [CreateObjectURL b url];
        objectURLs := (url, b) :: objectURLs w;
        body := body w; downloads := downloads w;
        next_url := S (next_url w) |}).

(** [URL.revokeObjectURL(url)] *)
Definition revokeObjectURL (url : string) : M unit :=
  fun w =>
    (Returned tt,
     {| events := events w ++ [RevokeObjectURL url];
        objectURLs :=
          filter (fun e => negb (String.eqb (fst e) url)) (objectURLs w);
        body := body w; downloads := downloads w;
        next_url := next_url w |}).

Definition Anchor_eqb (a b : Anchor) : bool :=
  String.eqb (href a) (href b) && String.eqb (download a) (download b).

(** [document.body.appendChild(a)] *)
Definition body_appendChild (a : Anchor) : M unit :=
  fun w =>
    (Returned tt,
     {| events := events w ++ [BodyAppendChild a];
        objectURLs := objectURLs w;
        body := body w ++ [a]; downloads := downloads w;
        next_url := next_url w |}).

(** [a.remove()] *)
Definition remove (a : Anchor) : M unit :=
  fun w =>
    (Returned tt,
     {| events := events w ++ [Remove a];
        objectURLs := objectURLs w;
        body := filter (fun b => negb (Anchor_eqb a b)) (body w);
        downloads := downloads w;
        next_url := next_url w |}).

Fixpoint lookup_url (url : string) (l : list (string * Blob)) : option Blob :=
  match l with
  | [] => None
  | (u, b) :: rest => if String.eqb u url then Some b else lookup_url url rest
  end.

Section ExportCallback.
(** The two things the browser decides: the markup [XMLSerializer] writes
    for a tree, and whether activating an anchor raises. *)
Variable serializeToString : node -> string.
Variable click_raises : Anchor -> bool.

(** [a.click()]: the save sink. The browser is asked for the download
    unless the call raises. *)
Definition click (a : Anchor) : M unit :=
  fun w =>
    let w' := {| events := events w ++ [Click a];
                 objectURLs := objectURLs w; body := body w;
                 downloads := downloads w; next_url := next_url w |} in
    if click_raises a then (Raised "click", w')
    else (Returned tt,
          {| events := events w'; objectURLs := objectURLs w';
             body := body w'; downloads := downloads w' ++ [a];
             next_url := next_url w' |}).

Definition export_blob (el : node) : Blob :=
  {| parts := [serializeToString (export_document el)];
     type := "image/svg+xml;charset=utf-8" |}.

(** [exportSVG], with [svgRef.current] as its argument. *)
Definition exportSVG (current : option node) : M unit :=
  match current with
  | None => ret tt
  | Some el =>
      let blob := export_blob el in
      url <- createObjectURL blob ;;
      let a := {| href := url; download := "mandala.svg" |} in
      body_appendChild a ;;
      click a ;;
      remove a ;;
      revokeObjectURL url
  end.
End ExportCallback.

(** The media type of a content type: what precedes its parameters. *)
Fixpoint media_type (content_type : string) : string :=
  match content_type with
  | EmptyString => EmptyString
  | String c rest =>
      if Ascii.eqb c ";" then EmptyString else String c (media_type rest)
  end.

(** ** The wedges, one by one *)

Section Wedges.
Context {num : Type} `{JsNumber num}.
Local Open Scope js_scope.

(** The vertex the source computes for an angle in degrees and a radius:
    [cx + Math.cos(a2(angle)) * r], [cy + Math.sin(a2(angle)) * r]. *)
Definition vertex (angle r : num) : point num :=
  {| x := cx + Math_cos (a2 angle) * r; y := cy + Math_sin (a2 angle) * r |}.

Definition center : point num := {| x := cx; y := cy |}.

(** What iteration [i] of the first loop pushes on [wedgesOuter] and on
    [wedgesInner]. *)
Definition outer_wedge (spec : MandalaSpec) (i : Z) : element num :=
  polygon (key_of "ow" i)
    [ center; vertex (int i * step spec) outerR;
      vertex (int i * step spec + step spec) outerR ]
    (color spec) 0.8 "none".

Definition inner_wedge (spec : MandalaSpec) (i : Z) : element num :=
  polygon (key_of "iw" i)
    [ center; vertex (int i * step spec) innerR;
      vertex (int i * step spec + step spec) innerR ]
    (color spec) 0.25 "none".

(** What iteration [i] of the mirror loop pushes, first and second. *)
Definition mirror_outer_wedge (spec : MandalaSpec) (i : Z) : element num :=
  polygon (key_of "mw" i)
    [ center; vertex ((- int i) * step spec) outerR;
      vertex ((- (int i * step spec)) - step spec) outerR ]
    (color spec) 0.6 "none".

Definition mirror_inner_wedge (spec : MandalaSpec) (i : Z) : element num :=
  polygon (key_of "mi" i)
    [ center; vertex ((- int i) * step spec) innerR;
      vertex ((- (int i * step spec)) - step spec) innerR ]
    (color spec) 0.15 "none".

(** The values the loop counter takes. *)
Definition indices (n : Z) : list Z := map Z.of_nat (seq 0 (Z.to_nat n)).

(** The two leading children of the canvas: [<defs>] and the transparent
    [<rect>]. *)
Definition backdrop (spec : MandalaSpec) : list (element num) :=
  [ defs [ circle (Some "grad"%string) cx cy outerR (color spec) None ];
    rect 0 0 420 420 "#111" 0.0 ].

(** The children the mirror branch contributes, and the closing ones. *)
Definition mirror_wedges (spec : MandalaSpec) : list (element num) :=
  match symmetry spec with
  | mirror =>
      flat_map (fun i => [mirror_outer_wedge spec i; mirror_inner_wedge spec i])
               (indices (segments spec))
  | radial => []
  end.

Definition trailer (spec : MandalaSpec) : list (element num) :=
  (if showWatermark spec then [watermark_text] else []) ++ [center_dot].

(** All the wedges, in the order they are rendered. *)
Definition wedges (spec : MandalaSpec) : list (element num) :=
  map (outer_wedge spec) (indices (segments spec))
  ++ map (inner_wedge spec) (indices (segments spec))
  ++ mirror_wedges spec.
End Wedges.

(** ** The geometry in the words of the specification, in binary64 *)

Declare Scope double_scope.
Delimit Scope double_scope with double.
Infix "+" := PrimFloat.add : double_scope.
Infix "-" := PrimFloat.sub : double_scope.
Infix "*" := PrimFloat.mul : double_scope.
Infix "/" := PrimFloat.div : double_scope.
Notation "- x" := (PrimFloat.opp x) : double_scope.

Module Binary64.
Section Engine.
(** [Math.cos] and [Math.sin], as the engine computes them. *)
Variables cos sin : PrimFloat.float -> PrimFloat.float.
Local Open Scope double_scope.

(** The double that holds a small integer. *)
Definition I (z : Z) : PrimFloat.float := double_of_Z z.

Definition PI : PrimFloat.float :=
  double_of_Q (884279719003555 # 281474976710656).

Definition C : point PrimFloat.float := {| x := I 210; y := I 210 |}.
Definition R_out : PrimFloat.float := I 140.
Definition R_in : PrimFloat.float := double_of_Q 0.6 * R_out.
Definition theta (segments : Z) : PrimFloat.float := I 360 / I segments.

Definition P (angleDeg r : PrimFloat.float) : point PrimFloat.float :=
  {| x := x C + r * cos (angleDeg * PI / I 180);
     y := y C + r * sin (angleDeg * PI / I 180) |}.

(** The argument [a * pi / 180] handed to the cosine and to the sine, and
    the point they give at radius [r]. *)
Definition radians (angleDeg : PrimFloat.float) : PrimFloat.float :=
  angleDeg * PI / I 180.

Definition at_radians (rad r : PrimFloat.float) : point PrimFloat.float :=
  {| x := x C + r * cos rad; y := y C + r * sin rad |}.

(** The outer wedges as the specification gives them: over the angles
    [i * theta] and [(i + 1) * theta], and their negations for the mirrored
    one. *)
Definition claimed_outer (spec : MandalaSpec) (i : Z)
  : element PrimFloat.float :=
  polygon (key_of "ow" i)
    [ C; P (I i * theta (segments spec)) (I 140);
      P (I (i + 1) * theta (segments spec)) (I 140) ]
    (color spec) 0.8 "none".

Definition claimed_mirror_outer (spec : MandalaSpec) (i : Z)
  : element PrimFloat.float :=
  polygon (key_of "mw" i)
    [ C; P (- I i * theta (segments spec)) (I 140);
      P (- I (i + 1) * theta (segments spec)) (I 140) ]
    (color spec) 0.6 "none".

End Engine.

(** A stand-in for [Math.cos] and [Math.sin] that tells one argument from
    all the others. *)
Definition indicator (a0 a : PrimFloat.float) : PrimFloat.float :=
  if PrimFloat.eqb a a0 then I 1 else I 0.

(** Whether, for [n] segments, the two arguments of the mirrored wedge
    [i] are the negated arguments of the primary wedge [i]. *)
Definition negated_arguments (n i : nat) : bool :=
  let t := theta (Z.of_nat n) in
  let a := (I (Z.of_nat i) * t)%double in
  PrimFloat.Leibniz.eqb (radians (- I (Z.of_nat i) * t)%double)
                        (- radians a)%double
  && PrimFloat.Leibniz.eqb (radians (- a - t)%double)
                           (- radians (a + t)%double)%double.

(** Whether the third point of a polygon has the abscissa [v]. *)
Definition third_x_is (v : PrimFloat.float)
    (o : option (element PrimFloat.float)) : bool :=
  match o with
  | Some (polygon _ (_ :: _ :: p :: _) _ _ _) => PrimFloat.eqb (x p) v
  | _ => false
  end.
End Binary64.

(** ** The store and the cart *)

Module StoreItem.
Record t : Type := { id : string; name : string; price : Q }.
End StoreItem.

Definition STORE_ITEMS : list StoreItem.t :=
  [ {| StoreItem.id := "print-a4"; StoreItem.name := "Fine Art Print A4";
       StoreItem.price := 39 |};
    {| StoreItem.id := "print-a3"; StoreItem.name := "Fine Art Print A3";
       StoreItem.price := 59 |};
    {| StoreItem.id := "svg-asset"; StoreItem.name := "SVG Asset Pack";
       StoreItem.price := 12 |} ].

(** [p.id === item.id] *)
Definition same_id (item : StoreItem.t) (p : CartItem.t) : bool :=
  String.eqb (CartItem.id p) (StoreItem.id item).

(** [{ ...p, quantity: p.quantity + 1 }] *)
Definition one_more (p : CartItem.t) : CartItem.t :=
  {| CartItem.id := CartItem.id p; CartItem.name := CartItem.name p;
     CartItem.price := CartItem.price p;
     CartItem.quantity := (CartItem.quantity p + 1)%Z |}.

(** The updater [addToCart] hands to [setCart] (source lines 262-268). *)
Definition add_item (item : StoreItem.t) (prev : list CartItem.t)
  : list CartItem.t :=
  match find (same_id item) prev with
  | Some found => map (fun p => if same_id item p then one_more p else p) prev
  | None =>
      prev ++ [ {| CartItem.id := StoreItem.id item;
                   CartItem.name := StoreItem.name item;
                   CartItem.price := StoreItem.price item;
                   CartItem.quantity := 1 |} ]
  end.

Definition set_cart (st : AppState) (c : list CartItem.t) : AppState :=
  {| active := active st; spec := spec st; license := license st; cart := c;
     storeOpen := storeOpen st; checkoutState := checkoutState st;
     assets := assets st; seo := seo st |}.

Definition set_storeOpen (st : AppState) (b : bool) : AppState :=
  {| active := active st; spec := spec st; license := license st;
     cart := cart st; storeOpen := b; checkoutState := checkoutState st;
     assets := assets st; seo := seo st |}.

Definition set_checkoutState (st : AppState) (c : option CheckoutState)
  : AppState :=
  {| active := active st; spec := spec st; license := license st;
     cart := cart st; storeOpen := storeOpen st; checkoutState := c;
     assets := assets st; seo := seo st |}.

Definition set_assets (st : AppState) (a : list Asset.t) : AppState :=
  {| active := active st; spec := spec st; license := license st;
     cart := cart st; storeOpen := storeOpen st;
     checkoutState := checkoutState st; assets := a; seo := seo st |}.

(** [addToCart(item)] *)
Definition addToCart (item : StoreItem.t) (st : AppState) : AppState :=
  set_storeOpen (set_cart st (add_item item (cart st))) true.

(** [cart.reduce((sum, it) => sum + it.price * it.quantity, 0)], in exact
    arithmetic. *)
Definition cartTotal (c : list CartItem.t) : Q :=
  fold_left
    (fun sum it => sum + CartItem.price it * inject_Z (CartItem.quantity it))
    c 0.

(** The units of one product in the cart. *)
Definition quantity_of (id : string) (c : list CartItem.t) : Z :=
  fold_right
    (fun p acc =>
       if String.eqb (CartItem.id p) id then (CartItem.quantity p + acc)%Z
       else acc)
    0%Z c.

Definition is_processing (c : option CheckoutState) : bool :=
  match c with Some processing => true | _ => false end.

(** [checkout] up to its [await] (lines 274-276): whether the timer was
    started, and the state. *)
Definition checkout_start (st : AppState) : bool * AppState :=
  match cart st with
  | [] => (false, st)
  | _ :: _ => (true, set_checkoutState st (Some processing))
  end.

(** [checkout] after the timer (lines 277-278). *)
Definition checkout_finish (st : AppState) : AppState :=
  set_cart (set_checkoutState st (Some success)) [].

(** A click on the Checkout button:
    [onClick={checkoutState === 'processing' ? undefined : checkout}]. *)
Definition click_checkout (st : AppState) : bool * AppState :=
  if is_processing (checkoutState st) then (false, st) else checkout_start st.

(** ** The asset list *)

(** One pass of the upload loop (lines 219-221); [now i] is what
    [Date.now()] returns in iteration [i]. *)
Definition upload_body (now : Z -> Z) (files : list string) (i : Z)
    (next : list Asset.t) : list Asset.t :=
  match nth_error files (Z.to_nat i) with
  | Some f =>
      push next
        {| Asset.id := ("asset-" ++ string_of_Z (now i) ++ "-"
                        ++ string_of_Z i)%string;
           Asset.name := f; Asset.tags := []; Asset.url := None |}
  | None => next
  end.

(** The new list of assets after [onBulkUpload]; [files] holds the names of
    the chosen files and is [None] when [ev.target.files] is null. *)
Definition onBulkUpload (now : Z -> Z) (files : option (list string))
    (prev : list Asset.t) : list Asset.t :=
  match files with
  | None => prev
  | Some [] => prev
  | Some fs =>
      prev ++ for_range (Z.of_nat (List.length fs)) (upload_body now fs) []
  end.

(** ** Tags

    A string is read as the sequence of its code units, all below 256. *)

(** The white space and line terminators [trim] strips, among the code
    units below 256: TAB, LF, VT, FF, CR, SP and NBSP. *)
Definition is_white (c : ascii) : bool :=
  match nat_of_ascii c with
  | 9 | 10 | 11 | 12 | 13 | 32 | 160 => true
  | _ => false
  end%nat.

Fixpoint trimStart (s : string) : string :=
  match s with
  | EmptyString => EmptyString
  | String c r => if is_white c then trimStart r else s
  end.

Fixpoint trimEnd (s : string) : string :=
  match s with
  | EmptyString => EmptyString
  | String c r =>
      match trimEnd r with
      | EmptyString => if is_white c then EmptyString else String c EmptyString
      | r' => String c r'
      end
  end.

(** [String.prototype.trim] *)
Definition trim (s : string) : string := trimEnd (trimStart s).

(** [s.split(sep)] for a separator of one character; the result is never
    empty. *)
Fixpoint split (sep : ascii) (s : string) : list string :=
  match s with
  | EmptyString => [EmptyString]
  | String c r =>
      if Ascii.eqb c sep then EmptyString :: split sep r
      else match split sep r with
           | h :: t => String c h :: t
           | [] => [String c EmptyString]
           end
  end.

(** [Boolean(t)] for a string. *)
Definition nonempty (t : string) : bool :=
  match t with EmptyString => false | String _ _ => true end.

(** [e.target.value.split(',').map(t => t.trim()).filter(Boolean)] *)
Definition parse_tags (value : string) : list string :=
  filter nonempty (map trim (split "," value)).

(** [a.tags.join(', ')], the value the tag input shows. *)
Definition tags_value (tags : list string) : string :=
  String.concat ", " tags.

Definition set_tags (it : Asset.t) (tags : list string) : Asset.t :=
  {| Asset.id := Asset.id it; Asset.name := Asset.name it;
     Asset.tags := tags; Asset.url := Asset.url it |}.

(** The updater of the tag input of asset [a] (line 458). *)
Definition onTagsChange (a : Asset.t) (value : string) (arr : list Asset.t)
  : list Asset.t :=
  let tags := parse_tags value in
  map (fun it =>
         if String.eqb (Asset.id it) (Asset.id a) then set_tags it tags
         else it)
      arr.

Fixpoint no_comma (s : string) : bool :=
  match s with
  | EmptyString => true
  | String c r => negb (Ascii.eqb c ",") && no_comma r
  end.

(** A tag as [parse_tags] leaves it: not empty, without comma, trimmed. *)
Definition clean_tag (t : string) : Prop :=
  nonempty t = true /\ no_comma t = true /\ trim t = t.

(** A string that does not start with white space. *)
Definition starts_clean (s : string) : Prop :=
  match s with
  | EmptyString => True
  | String c _ => is_white c = false
  end.

(** The [key] of a polygon. *)
Definition element_key {num : Type} (e : element num) : option string :=
  match e with polygon k _ _ _ _ => Some k | _ => None end.

(** The first two characters of a key. *)
Definition prefix2 (s : string) : string := substring 0 2 s.

(** ** Amounts *)

Definition two_digits (b : Z) : string :=
  if (b <? 10)%Z then ("0" ++ string_of_Z b)%string else string_of_Z b.

(** [x.toFixed(2)] for the exact value [x] of a finite number, as
    ECMAScript defines it: the sign, then the integer [n] nearest to
    [100 * |x|] (the larger one of two), written with a point before its
    last two digits. From 10^21 on the result is that of [toString], which
    is not modelled. *)
Definition toFixed2 (x : Q) : option string :=
  let s := if Qle_bool 0 x then EmptyString else "-"%string in
  let ax := Qabs x in
  if Qle_bool (inject_Z (10 ^ 21)) ax then None
  else
    let n := Qfloor (ax * 100 + (1 # 2)) in
    Some (s ++ string_of_Z (n / 100) ++ "." ++ two_digits (n mod 100))%string.

(** [currency(n)]: [`$${n.toFixed(2)}`] *)
Definition currency (n : Q) : option string :=
  option_map (fun m => String "$" m) (toFixed2 n).

(** The first product of the store. *)
Definition print_a4 : StoreItem.t :=
  {| StoreItem.id := "print-a4"; StoreItem.name := "Fine Art Print A4";
     StoreItem.price := 39 |}.

(** The asset the upload loop builds in iteration [i] for the file [f]. *)
Definition uploaded (now : Z -> Z) (i : Z) (f : string) : Asset.t :=
  {| Asset.id := ("asset-" ++ string_of_Z (now i) ++ "-"
                  ++ string_of_Z i)%string;
     Asset.name := f; Asset.tags := []; Asset.url := None |}.

(** The assets built for the files [fs], the first of which has index
    [k]. *)
Fixpoint uploaded_from (now : Z -> Z) (k : nat) (fs : list string)
  : list Asset.t :=
  match fs with
  | [] => []
  | f :: rest => uploaded now (Z.of_nat k) f :: uploaded_from now (S k) rest
  end.

Fixpoint no_dash (s : string) : bool :=
  match s with
  | EmptyString => true
  | String c r => negb (Ascii.eqb c "-") && no_dash r
  end.

(** ** Concrete inputs and the release predicate *)

(** Two application states that agree on the spec and on nothing else. *)
Definition state_a : AppState :=
  {| active := builder; spec := initial_spec; license := None; cart := [];
     storeOpen := false; checkoutState := None; assets := [];
     seo := {| title := "Mandala Portfolio"; description := "";
               keywords := "" |} |}.

Definition state_b : AppState :=
  {| active := store; spec := initial_spec;
     license := Some {| License.id := "editorial";
                        License.name := "Editorial License";
                        License.terms := "" |};
     cart := [ {| CartItem.id := "print-a4";
                  CartItem.name := "Fine Art Print A4";
                  CartItem.price := 39; CartItem.quantity := 2 |} ];
     storeOpen := true; checkoutState := Some processing; assets := [];
     seo := {| title := "Other"; description := "d"; keywords := "k" |} |}.

(** The element [svgRef] points to once the builder panel is mounted: the
    outer [<svg>] whose only child is the [<g>] around the canvas. *)
Definition mounted_svg (canvas_children : list node) : node :=
  Element SVG_NS "svg"
    [ ("width", "420"); ("height", "420"); ("viewBox", "0 0 420 420");
      ("role", "img"); ("aria-label", "Mandala SVG");
      ("style", "display: block;") ]%string
    [ Element SVG_NS "g" []
        [ Element SVG_NS "svg"
            [ ("width", "420"); ("height", "420");
              ("viewBox", "0 0 420 420");
              ("aria-label", "Mandala canvas"); ("role", "img") ]%string
            canvas_children ] ].

(** The object URL of an export started in [w] is no longer live once the
    export is over. *)
Definition url_released (serializeToString : node -> string)
    (click_raises : Anchor -> bool) (el : node) (w : World) : Prop :=
  lookup_url (url_of (next_url w))
    (objectURLs (snd (exportSVG serializeToString click_raises (Some el) w)))
  = None.

(** ** Facts about the loops *)

Lemma for_loop_fold {A : Type} (n : Z) (body : Z -> A -> A) (fuel : nat) :
  forall (k : nat) (st : A),
    (k + fuel = Z.to_nat n)%nat ->
    for_loop fuel (Z.of_nat k) n body st
    = fold_left (fun acc j => body (Z.of_nat j) acc) (seq k fuel) st.
Proof.
  induction fuel as [|fuel IH]; intros k st Hk; [reflexivity|].
  cbn [for_loop seq fold_left].
  destruct (Z.ltb_spec (Z.of_nat k) n) as [_|Hge]; [|lia].
  replace (Z.of_nat k + 1)%Z with (Z.of_nat (S k)) by lia.
  apply IH. lia.
Qed.


Lemma for_range_fold {A : Type} (n : Z) (body : Z -> A -> A) (init : A) :
  for_range n body init
  = fold_left (fun acc k => body (Z.of_nat k) acc) (seq 0 (Z.to_nat n)) init.
Proof. unfold for_range. now apply (for_loop_fold n body (Z.to_nat n) 0%nat). Qed.

Section GeneratorFacts.
Context {num : Type} `{JsNumber num}.

Lemma primary_body_push (spec : MandalaSpec) (i : Z)
    (o n : list (element num)) :
  primary_body spec i (o, n)
  = (o ++ [outer_wedge spec i], n ++ [inner_wedge spec i]).
Proof. reflexivity. Qed.

Lemma mirror_body_push (spec : MandalaSpec) (i : Z) (m : list (element num)) :
  mirror_body spec i m
  = m ++ [mirror_outer_wedge spec i; mirror_inner_wedge spec i].
Proof.
  unfold mirror_body, push. rewrite <- app_assoc. reflexivity.
Qed.

Lemma primary_fold (spec : MandalaSpec) (l : list nat) :
  forall o n : list (element num),
    fold_left (fun acc k => primary_body spec (Z.of_nat k) acc) l (o, n)
    = (o ++ map (outer_wedge spec) (map Z.of_nat l),
       n ++ map (inner_wedge spec) (map Z.of_nat l)).
Proof.
  induction l as [|k l IH]; intros o n; cbn [fold_left map].
  - now rewrite !app_nil_r.
  - rewrite primary_body_push, IH, <- !app_assoc. reflexivity.
Qed.

Lemma mirror_fold (spec : MandalaSpec) (l : list nat) :
  forall m : list (element num),
    fold_left (fun acc k => mirror_body spec (Z.of_nat k) acc) l m
    = m ++ flat_map (fun i => [mirror_outer_wedge spec i;
                               mirror_inner_wedge spec i])
                    (map Z.of_nat l).
Proof.
  induction l as [|k l IH]; intros m; cbn [fold_left map flat_map].
  - now rewrite app_nil_r.
  - rewrite mirror_body_push, IH, <- app_assoc. reflexivity.
Qed.

Lemma primary_loop (spec : MandalaSpec) :
  for_range (segments spec) (primary_body spec) ([], [])
  = (map (outer_wedge spec) (indices (segments spec)),
     map (inner_wedge spec) (indices (segments spec))).
Proof. now rewrite for_range_fold, primary_fold. Qed.

Lemma mirror_loop (spec : MandalaSpec) :
  for_range (segments spec) (mirror_body spec) []
  = flat_map (fun i => [mirror_outer_wedge spec i; mirror_inner_wedge spec i])
             (indices (segments spec)).
Proof. now rewrite for_range_fold, mirror_fold. Qed.

(** The children of the canvas, in order. *)
Lemma generate_shape (spec : MandalaSpec) (watermark : bool) :
  generate spec watermark = backdrop spec ++ wedges spec ++ trailer spec.
Proof.
  unfold generate, MandalaCanvas, wedges, mirror_wedges, trailer.
  rewrite primary_loop, mirror_loop, <- !app_assoc.
  destruct (symmetry spec); reflexivity.
Qed.

Lemma length_indices (n : Z) : List.length (indices n) = Z.to_nat n.
Proof. unfold indices. now rewrite length_map, length_seq. Qed.

Lemma nth_error_indices (n : Z) (k : nat) :
  (k < Z.to_nat n)%nat -> nth_error (indices n) k = Some (Z.of_nat k).
Proof.
  intros Hk. unfold indices.
  rewrite nth_error_map, nth_error_seq.
  destruct (Nat.ltb_spec k (Z.to_nat n)); [reflexivity | lia].
Qed.

Lemma length_mirror_wedges (spec : MandalaSpec) :
  List.length (mirror_wedges spec)
  = match symmetry spec with
    | mirror => (2 * Z.to_nat (segments spec))%nat
    | radial => 0%nat
    end.
Proof.
  unfold mirror_wedges. destruct (symmetry spec); [reflexivity|].
  generalize (length_indices (segments spec)).
  generalize (indices (segments spec)) as l.
  intros l <-. induction l as [|a l IH]; simpl; [reflexivity | lia].
Qed.
End GeneratorFacts.

(** ** Counting the children by kind *)

Section Counting.
Context {num : Type} `{JsNumber num}.

Lemma count_app (p : element num -> bool) (l l' : list (element num)) :
  count p (l ++ l') = (count p l + count p l')%nat.
Proof. unfold count. now rewrite filter_app, length_app. Qed.

Lemma count_all (p : element num -> bool) (l : list (element num)) :
  (forall e, In e l -> p e = true) -> count p l = List.length l.
Proof.
  intros Hall. unfold count. rewrite forallb_filter_id; [reflexivity|].
  now apply forallb_forall.
Qed.

Lemma count_none (p : element num -> bool) (l : list (element num)) :
  (forall e, In e l -> p e = false) -> count p l = 0%nat.
Proof.
  unfold count. induction l as [|a l IH]; intros Hnone; [reflexivity|].
  simpl. rewrite (Hnone a (or_introl eq_refl)). apply IH.
  intros e He. apply Hnone. now right.
Qed.

(** Every element of the wedge lists is a [polygon]. *)
Lemma wedge_kinds (spec : MandalaSpec) (e : element num) :
  In e (wedges spec) ->
  is_polygon e = true /\ is_text e = false /\ is_circle e = false.
Proof.
  unfold wedges. rewrite !in_app_iff, !in_map_iff. unfold mirror_wedges.
  intros [[i [<- _]] | [[i [<- _]] | Hm]]; [now repeat split .. |].
  destruct (symmetry spec); [contradiction|].
  apply in_flat_map in Hm. destruct Hm as [i [_ [<- | [<- | []]]]];
    now repeat split.
Qed.

Lemma length_wedges (spec : MandalaSpec) :
  List.length (wedges (num:=num) spec)
  = match symmetry spec with
    | radial => (2 * Z.to_nat (segments spec))%nat
    | mirror => (4 * Z.to_nat (segments spec))%nat
    end.
Proof.
  unfold wedges.
  rewrite !length_app, !length_map, length_indices, length_mirror_wedges.
  destruct (symmetry spec); lia.
Qed.

(** The number of wedges, of labels and of circles among the children, for
    any number of segments. *)
Lemma counts (spec : MandalaSpec) (watermark : bool) :
  count is_polygon (generate spec watermark)
  = match symmetry spec with
    | radial => (2 * Z.to_nat (segments spec))%nat
    | mirror => (4 * Z.to_nat (segments spec))%nat
    end
  /\ count is_text (generate spec watermark)
     = (if showWatermark spec then 1 else 0)%nat
  /\ count is_circle (generate spec watermark) = 1%nat.
Proof.
  rewrite generate_shape, !count_app.
  pose proof (wedge_kinds spec) as Hk.
  repeat split.
  - rewrite (count_all is_polygon (wedges spec)) by (intros e He; apply Hk, He).
    rewrite length_wedges. unfold trailer.
    destruct (symmetry spec), (showWatermark spec); cbn; lia.
  - rewrite (count_none is_text (wedges spec)) by (intros e He; apply Hk, He).
    unfold trailer. destruct (showWatermark spec); reflexivity.
  - rewrite (count_none is_circle (wedges spec)) by (intros e He; apply Hk, He).
    unfold trailer. destruct (showWatermark spec); reflexivity.
Qed.

(** The children that are neither wedge, label nor circle are the two of
    the backdrop. *)
Lemma other_children (spec : MandalaSpec) (watermark : bool) :
  filter (fun e => negb (is_polygon e || is_text e || is_circle e))
         (generate spec watermark)
  = backdrop spec.
Proof.
  rewrite generate_shape, !filter_app.
  assert (Hw : forall l : list (element num),
             (forall e, In e l -> is_polygon e = true) ->
             filter (fun e => negb (is_polygon e || is_text e || is_circle e)) l
             = []).
  { induction l as [|a l IH]; intros Hall; [reflexivity|].
    simpl. rewrite (Hall a (or_introl eq_refl)). simpl. apply IH.
    intros e He. apply Hall. now right. }
  rewrite (Hw (wedges spec)) by (intros e He; apply (wedge_kinds spec), He).
  unfold trailer. destruct (showWatermark spec); reflexivity.
Qed.

Lemma canvas_ignores_watermark (spec : MandalaSpec) (w1 w2 : bool) :
  MandalaCanvas (num:=num) spec w1 = MandalaCanvas spec w2.
Proof. reflexivity. Qed.
End Counting.

(** ** Where each wedge sits *)

Section Positions.
Context {num : Type} `{JsNumber num}.

Lemma nth_error_pairs {A B : Type} (f g : A -> B) (l : list A) :
  forall k : nat,
    nth_error (flat_map (fun a => [f a; g a]) l) (2 * k)
    = option_map f (nth_error l k)
    /\ nth_error (flat_map (fun a => [f a; g a]) l) (2 * k + 1)
       = option_map g (nth_error l k).
Proof.
  induction l as [|a l IH]; intros k.
  - rewrite !nth_error_nil. destruct k; now split.
  - destruct k as [|k]; [now split|].
    replace (2 * S k)%nat with (S (S (2 * k))) by lia.
    cbn [flat_map app nth_error Nat.add]. apply IH.
Qed.

Lemma outer_position (spec : MandalaSpec) (watermark : bool) (k : nat) :
  (k < Z.to_nat (segments spec))%nat ->
  nth_error (generate spec watermark) (2 + k)
  = Some (outer_wedge spec (Z.of_nat k)).
Proof.
  intros Hk. rewrite generate_shape. cbn [backdrop app Nat.add nth_error].
  unfold wedges. rewrite <- !app_assoc.
  rewrite nth_error_app1 by (rewrite length_map, length_indices; exact Hk).
  now rewrite nth_error_map, nth_error_indices.
Qed.

Lemma inner_position (spec : MandalaSpec) (watermark : bool) (k : nat) :
  (k < Z.to_nat (segments spec))%nat ->
  nth_error (generate spec watermark) (2 + Z.to_nat (segments spec) + k)
  = Some (inner_wedge spec (Z.of_nat k)).
Proof.
  intros Hk. rewrite generate_shape. cbn [backdrop app Nat.add nth_error].
  unfold wedges. rewrite <- !app_assoc.
  rewrite nth_error_app2 by (rewrite length_map, length_indices; lia).
  rewrite length_map, length_indices.
  replace (Z.to_nat (segments spec) + k - Z.to_nat (segments spec))%nat
    with k by lia.
  rewrite nth_error_app1 by (rewrite length_map, length_indices; exact Hk).
  now rewrite nth_error_map, nth_error_indices.
Qed.

Lemma mirror_positions (spec : MandalaSpec) (watermark : bool) (k : nat) :
  symmetry spec = mirror ->
  (k < Z.to_nat (segments spec))%nat ->
  nth_error (generate spec watermark)
            (2 + 2 * Z.to_nat (segments spec) + 2 * k)
  = Some (mirror_outer_wedge spec (Z.of_nat k))
  /\ nth_error (generate spec watermark)
               (2 + 2 * Z.to_nat (segments spec) + 2 * k + 1)
     = Some (mirror_inner_wedge spec (Z.of_nat k)).
Proof.
  intros Hm Hk. rewrite generate_shape. unfold wedges.
  rewrite <- !app_assoc.
  set (n := Z.to_nat (segments spec)) in *.
  assert (Hmw : (2 * k + 1 < List.length (mirror_wedges spec))%nat)
    by (rewrite length_mirror_wedges, Hm; lia).
  cbn [backdrop app].
  replace (2 + 2 * n + 2 * k + 1)%nat with (S (S (n + (n + (2 * k + 1)))))
    by lia.
  replace (2 + 2 * n + 2 * k)%nat with (S (S (n + (n + 2 * k)))) by lia.
  cbn [nth_error].
  assert (Hskip : forall (f : Z -> element num) (rest : list (element num))
                    (j : nat),
             nth_error (map f (indices (segments spec)) ++ rest) (n + j)
             = nth_error rest j).
  { intros f rest j.
    rewrite nth_error_app2 by (rewrite length_map, length_indices; fold n; lia).
    rewrite length_map, length_indices. fold n. f_equal. lia. }
  rewrite !Hskip, !nth_error_app1 by lia.
  unfold mirror_wedges in *. rewrite Hm in *.
  destruct (nth_error_pairs (mirror_outer_wedge spec)
              (mirror_inner_wedge spec) (indices (segments spec)) k)
    as [-> ->].
  now rewrite nth_error_indices.
Qed.

Lemma nth_error_snoc {A : Type} (l : list A) (a : A) :
  nth_error (l ++ [a]) (List.length (l ++ [a]) - 1) = Some a.
Proof.
  rewrite length_app. cbn [List.length].
  replace (List.length l + 1 - 1)%nat with (List.length l) by lia.
  rewrite nth_error_app2 by lia. now rewrite Nat.sub_diag.
Qed.

Lemma length_generate (spec : MandalaSpec) (watermark : bool) :
  List.length (generate spec watermark)
  = (2 + List.length (wedges spec)
     + (if showWatermark spec then 1 else 0) + 1)%nat.
Proof.
  rewrite generate_shape, !length_app. unfold trailer.
  destruct (showWatermark spec); cbn [backdrop List.length app]; lia.
Qed.

Lemma watermark_position (spec : MandalaSpec) (watermark : bool) :
  showWatermark spec = true ->
  nth_error (generate spec watermark)
            (List.length (generate spec watermark) - 2)
  = Some watermark_text.
Proof.
  intros Hw. rewrite length_generate, generate_shape, Hw.
  unfold trailer. rewrite Hw, app_assoc.
  rewrite nth_error_app2
    by (rewrite length_app; cbn [backdrop List.length]; lia).
  rewrite length_app. cbn [backdrop List.length].
  replace (2 + List.length (wedges spec) + 1 + 1 - 2
           - (2 + List.length (wedges spec)))%nat with 0%nat by lia.
  reflexivity.
Qed.
End Positions.

(** ** The generator: cardinality, order, determinism *)

(** C2. For a valid spec the scene holds exactly [2 * segments] wedge
    polygons under radial symmetry and [4 * segments] under mirror symmetry,
    exactly one circle (the centre dot) and one text when [showWatermark]
    is set, none otherwise; its only other children are the [<defs>] and
    the transparent [<rect>] of the backdrop, which draw nothing. *)
Theorem scene_cardinality {num : Type} `{JsNumber num}
    (spec : MandalaSpec) (watermark : bool) :
  valid_spec spec ->
  Z.of_nat (count is_polygon (generate spec watermark))
  = (match symmetry spec with radial => 2 | mirror => 4 end
     * segments spec)%Z
  /\ count is_circle (generate spec watermark) = 1%nat
  /\ count is_text (generate spec watermark)
     = (if showWatermark spec then 1 else 0)%nat
  /\ filter (fun e => negb (is_polygon e || is_text e || is_circle e))
            (generate spec watermark)
     = backdrop spec.
Proof.
  intros Hv. unfold valid_spec in Hv.
  destruct (counts spec watermark) as (Hp & Ht & Hc).
  repeat split; [| exact Hc | exact Ht | apply other_children].
  rewrite Hp. destruct (symmetry spec); lia.
Qed.

Lemma scene_cardinality_witness :
  valid_spec initial_spec
  /\ valid_spec mirror_spec
  /\ count is_polygon (generate (num:=term) initial_spec true) = 24%nat
  /\ count is_text (generate (num:=term) initial_spec true) = 1%nat
  /\ count is_circle (generate (num:=term) initial_spec true) = 1%nat
  /\ count is_polygon (generate (num:=term) mirror_spec true) = 48%nat.
Proof.
  assert (V1 : valid_spec initial_spec) by (unfold valid_spec; simpl; lia).
  assert (V2 : valid_spec mirror_spec) by (unfold valid_spec; simpl; lia).
  destruct (scene_cardinality (num:=term) true V1) as (P1 & C1 & T1 & _).
  destruct (scene_cardinality (num:=term) true V2) as (P2 & _).
  split; [exact V1|]. split; [exact V2|].
  split; [apply Nat2Z.inj; exact P1|].
  split; [exact T1|]. split; [exact C1|].
  apply Nat2Z.inj; exact P2.
Defined.

(** C5. Painter's order: outer wedge [i] is child [2 + i] and inner wedge
    [i] is child [2 + segments + i], further on; under mirror symmetry the
    mirrored inner wedge [i] directly follows the mirrored outer wedge [i];
    when the watermark is shown it is the last child but one; and the last
    child is always the centre dot, a circle of radius 6 filled [#fff] at
    opacity 0.3. *)
Theorem painter_order {num : Type} `{JsNumber num}
    (spec : MandalaSpec) (watermark : bool) :
  (forall i : Z, (0 <= i < segments spec)%Z ->
     let po := (2 + Z.to_nat i)%nat in
     let pi := (2 + Z.to_nat (segments spec) + Z.to_nat i)%nat in
     (po < pi)%nat
     /\ nth_error (generate spec watermark) po = Some (outer_wedge spec i)
     /\ nth_error (generate spec watermark) pi = Some (inner_wedge spec i))
  /\ (symmetry spec = mirror ->
      forall i : Z, (0 <= i < segments spec)%Z ->
        let qo := (2 + 2 * Z.to_nat (segments spec) + 2 * Z.to_nat i)%nat in
        nth_error (generate spec watermark) qo
        = Some (mirror_outer_wedge spec i)
        /\ nth_error (generate spec watermark) (qo + 1)
           = Some (mirror_inner_wedge spec i))
  /\ (showWatermark spec = true ->
      nth_error (generate spec watermark)
                (List.length (generate spec watermark) - 2)
      = Some watermark_text)
  /\ nth_error (generate spec watermark)
               (List.length (generate spec watermark) - 1)
     = Some (circle None cx cy (int 6) "#fff" (Some 0.3)).
Proof.
  split; [|split; [|split]].
  - intros i Hi. cbv zeta. split; [lia|]. split.
    + rewrite <- (Z2Nat.id i) at 2 by lia. apply outer_position. lia.
    + rewrite <- (Z2Nat.id i) at 2 by lia. apply inner_position. lia.
  - intros Hm i Hi. cbv zeta.
    rewrite <- (Z2Nat.id i) at 2 4 by lia.
    apply mirror_positions; [assumption | lia].
  - apply watermark_position.
  - rewrite generate_shape. unfold trailer. rewrite !app_assoc.
    apply nth_error_snoc.
Qed.

Lemma painter_order_witness :
  nth_error (generate (num:=term) mirror_spec true) 5
  = Some (outer_wedge mirror_spec 3)
  /\ nth_error (generate (num:=term) mirror_spec true) 17
     = Some (inner_wedge mirror_spec 3)
  /\ nth_error (generate (num:=term) mirror_spec true) 32
     = Some (mirror_outer_wedge mirror_spec 3)
  /\ nth_error (generate (num:=term) mirror_spec true) 33
     = Some (mirror_inner_wedge mirror_spec 3)
  /\ nth_error (generate (num:=term) mirror_spec true) 50
     = Some watermark_text
  /\ nth_error (generate (num:=term) mirror_spec true) 51
     = Some center_dot.
Proof.
  destruct (painter_order (num:=term) mirror_spec true)
    as (Hprim & Hmir & Hwm & Hdot).
  destruct (Hprim 3%Z) as (_ & Ho & Hi); [simpl; lia|].
  destruct (Hmir eq_refl 3%Z) as (Hmo & Hmi); [simpl; lia|].
  specialize (Hwm eq_refl).
  repeat split; assumption.
Defined.

(** C9. The scene is a function of the spec alone: in any two application
    states that hold the same spec, and whatever is passed as [watermark],
    the canvas and its primitive sequence are equal. *)
Theorem generator_deterministic {num : Type} `{JsNumber num}
    (st1 st2 : AppState) (w1 w2 : bool) :
  spec st1 = spec st2 ->
  canvas_of st1 = canvas_of st2
  /\ generate (spec st1) w1 = generate (spec st2) w2.
Proof.
  intros Hs. unfold canvas_of. rewrite Hs. split.
  - reflexivity.
  - unfold generate. now rewrite (canvas_ignores_watermark (spec st2) w1 w2).
Qed.

Lemma generator_deterministic_witness :
  spec state_a = spec state_b
  /\ canvas_of (num:=term) state_a = canvas_of state_b
  /\ generate (num:=term) (spec state_a) true
     = generate (spec state_b) false.
Proof.
  split; [reflexivity|].
  apply (generator_deterministic (num:=term) state_a state_b true false).
  reflexivity.
Defined.

(** C10. The [watermark] prop is never read: both of its values give the
    same canvas, and the scene has a text child exactly when
    [spec.showWatermark] holds. *)
Theorem watermark_prop_unused {num : Type} `{JsNumber num}
    (spec : MandalaSpec) (watermark : bool) :
  MandalaCanvas spec true = MandalaCanvas spec false
  /\ existsb is_text (generate spec watermark) = showWatermark spec
  /\ count is_text (generate spec watermark)
     = (if showWatermark spec then 1 else 0)%nat.
Proof.
  split; [apply canvas_ignores_watermark|].
  destruct (counts spec watermark) as (_ & Ht & _).
  split; [|exact Ht].
  unfold count in Ht.
  destruct (existsb is_text (generate spec watermark)) eqn:E.
  - apply existsb_exists in E. destruct E as [e [Hin He]].
    destruct (showWatermark spec); [reflexivity|].
    assert (Hf : In e (filter is_text (generate spec watermark)))
      by (apply filter_In; now split).
    destruct (filter is_text (generate spec watermark));
      [contradiction | discriminate].
  - destruct (showWatermark spec); [|reflexivity].
    destruct (filter is_text (generate spec watermark)) as [|e l] eqn:F;
      [discriminate|].
    assert (Hin : In e (filter is_text (generate spec watermark)))
      by (rewrite F; now left).
    apply filter_In in Hin. destruct Hin as [Hin He].
    assert (Hex : existsb is_text (generate spec watermark) = true)
      by (apply existsb_exists; now exists e).
    congruence.
Qed.

(** ** Out-of-range segment counts *)





(** ** The geometry in binary64 *)

(** Rounding at work: in binary64 the inner radius [140 * 0.6] is exactly
    84 and [Math.PI] is 3.141592653589793, but the end angle the source
    computes, [i * step + step], and [(i + 1) * step] can differ in the
    last bit: for seven segments and [i = 5] they are 308.57142857142861
    and 308.57142857142856. *)
Remark rounding_in_binary64 (cos sin : PrimFloat.float -> PrimFloat.float) :
  PrimFloat.eqb (@innerR _ (double_number cos sin)) (double_of_Z 84) = true
  /\ PrimFloat.eqb
       (@add _ (double_number cos sin)
          (@mul _ (double_number cos sin)
             (@int _ (double_number cos sin) 5)
             (@step _ (double_number cos sin) (spec_of_segments 7)))
          (@step _ (double_number cos sin) (spec_of_segments 7)))
       (@mul _ (double_number cos sin)
          (@int _ (double_number cos sin) 6)
          (@step _ (double_number cos sin) (spec_of_segments 7)))
     = false.
Proof. split; vm_compute; reflexivity. Qed.

Section Binary64Facts.
Variables cos sin : PrimFloat.float -> PrimFloat.float.
Local Open Scope double_scope.

Lemma SF64mul_comm (a b : SpecFloat.spec_float) :
  FloatAxioms.SF64mul a b = FloatAxioms.SF64mul b a.
Proof.
  unfold FloatAxioms.SF64mul, SpecFloat.SFmul.
  destruct a as [sa|sa| |sa ma ea], b as [sb|sb| |sb mb eb];
    try reflexivity; rewrite (xorb_comm sa sb); try reflexivity.
  now rewrite (Pos.mul_comm ma mb), (Z.add_comm ea eb).
Qed.

(** The product of two doubles does not depend on their order. *)
Lemma double_mul_comm (a b : PrimFloat.float) : a * b = b * a.
Proof.
  rewrite <- (FloatAxioms.SF2Prim_Prim2SF (a * b)),
    <- (FloatAxioms.SF2Prim_Prim2SF (b * a)).
  now rewrite !FloatAxioms.mul_spec, SF64mul_comm.
Qed.

(** A counter or a segment count of a valid spec is held exactly. *)
Lemma int_small (z : Z) :
  (0 <= z <= 48)%Z -> double_of_Q (inject_Z z) = Binary64.I z.
Proof.
  intros Hz. rewrite <- (Z2Nat.id z) by lia.
  assert (Hk : (Z.to_nat z <= 48)%nat) by lia.
  revert Hk. generalize (Z.to_nat z) as k. intros k Hk.
  do 49 (destruct k as [|k]; [vm_compute; reflexivity|]). lia.
Qed.

Lemma vertex_is_P (angle r : PrimFloat.float) :
  @vertex _ (double_number cos sin) angle r = Binary64.P cos sin angle r.
Proof.
  unfold vertex, Binary64.P, a2.
  cbn [add mul div Math_cos Math_sin Math_PI double_number x y Binary64.C].
  rewrite (double_mul_comm (cos _) r), (double_mul_comm (sin _) r).
  reflexivity.
Qed.

Lemma step_is_theta (spec : MandalaSpec) :
  valid_spec spec ->
  @step _ (double_number cos sin) spec = Binary64.theta (segments spec).
Proof.
  intros Hv. unfold valid_spec in Hv. unfold step, Binary64.theta, int.
  cbn [div lit double_number]. rewrite (@int_small (segments spec)) by lia.
  reflexivity.
Qed.

Lemma counter_is_I (i : Z) :
  (0 <= i <= 48)%Z -> @int _ (double_number cos sin) i = Binary64.I i.
Proof. intros Hi. unfold int. cbn [lit double_number]. now apply int_small. Qed.

Lemma outer_wedge_double (spec : MandalaSpec) (i : Z) :
  valid_spec spec -> (0 <= i <= 48)%Z ->
  @outer_wedge _ (double_number cos sin) spec i
  = polygon (key_of "ow" i)
      [ Binary64.C;
        Binary64.P cos sin (Binary64.I i * Binary64.theta (segments spec))
                   (Binary64.I 140);
        Binary64.P cos sin
                   (Binary64.I i * Binary64.theta (segments spec)
                    + Binary64.theta (segments spec))
                   (Binary64.I 140) ]
      (color spec) 0.8 "none".
Proof.
  intros Hv Hi. unfold outer_wedge. rewrite !vertex_is_P.
  cbn [add mul double_number]. rewrite (step_is_theta Hv), (counter_is_I Hi).
  reflexivity.
Qed.

Lemma inner_wedge_double (spec : MandalaSpec) (i : Z) :
  valid_spec spec -> (0 <= i <= 48)%Z ->
  @inner_wedge _ (double_number cos sin) spec i
  = polygon (key_of "iw" i)
      [ Binary64.C;
        Binary64.P cos sin (Binary64.I i * Binary64.theta (segments spec))
                   (Binary64.I 84);
        Binary64.P cos sin
                   (Binary64.I i * Binary64.theta (segments spec)
                    + Binary64.theta (segments spec))
                   (Binary64.I 84) ]
      (color spec) 0.25 "none".
Proof.
  intros Hv Hi. unfold inner_wedge. rewrite !vertex_is_P.
  cbn [add mul double_number]. rewrite (step_is_theta Hv), (counter_is_I Hi).
  reflexivity.
Qed.

Lemma mirror_outer_wedge_double (spec : MandalaSpec) (i : Z) :
  valid_spec spec -> (0 <= i <= 48)%Z ->
  @mirror_outer_wedge _ (double_number cos sin) spec i
  = polygon (key_of "mw" i)
      [ Binary64.C;
        Binary64.P cos sin (- Binary64.I i * Binary64.theta (segments spec))
                   (Binary64.I 140);
        Binary64.P cos sin
                   (- (Binary64.I i * Binary64.theta (segments spec))
                    - Binary64.theta (segments spec))
                   (Binary64.I 140) ]
      (color spec) 0.6 "none".
Proof.
  intros Hv Hi. unfold mirror_outer_wedge. rewrite !vertex_is_P.
  cbn [sub neg mul double_number].
  rewrite (step_is_theta Hv), (counter_is_I Hi).
  reflexivity.
Qed.

Lemma mirror_inner_wedge_double (spec : MandalaSpec) (i : Z) :
  valid_spec spec -> (0 <= i <= 48)%Z ->
  @mirror_inner_wedge _ (double_number cos sin) spec i
  = polygon (key_of "mi" i)
      [ Binary64.C;
        Binary64.P cos sin (- Binary64.I i * Binary64.theta (segments spec))
                   (Binary64.I 84);
        Binary64.P cos sin
                   (- (Binary64.I i * Binary64.theta (segments spec))
                    - Binary64.theta (segments spec))
                   (Binary64.I 84) ]
      (color spec) 0.15 "none".
Proof.
  intros Hv Hi. unfold mirror_inner_wedge. rewrite !vertex_is_P.
  cbn [sub neg mul double_number].
  rewrite (step_is_theta Hv), (counter_is_I Hi).
  reflexivity.
Qed.
End Binary64Facts.

(** C3, as the specification states it, fails on the doubles of the
    program. With seven segments, the end angle of wedge 5 is computed as
    [5 * theta + theta], which is not the double [6 * theta], and the two
    give different arguments to [Math.cos] and [Math.sin]; so the wedge the
    code emits is the claimed one only under a cosine and a sine that
    cannot tell these arguments apart, and not under all. *)
Lemma end_angle_is_not_next_start :
  valid_spec (spec_of_segments 7)
  /\ PrimFloat.eqb
       (Binary64.I 5 * Binary64.theta 7 + Binary64.theta 7)%double
       (Binary64.I 6 * Binary64.theta 7)%double = false
  /\ PrimFloat.eqb
       ((Binary64.I 5 * Binary64.theta 7 + Binary64.theta 7)
        * Binary64.PI / Binary64.I 180)%double
       (Binary64.I 6 * Binary64.theta 7 * Binary64.PI / Binary64.I 180)%double
     = false
  /\ ~ (forall cos sin : PrimFloat.float -> PrimFloat.float,
          nth_error
            (@generate _ (double_number cos sin) (spec_of_segments 7) false) 7
          = Some (Binary64.claimed_outer cos sin (spec_of_segments 7) 5)).
Proof.
  split; [unfold valid_spec; simpl; lia|].
  split; [vm_compute; reflexivity|]. split; [vm_compute; reflexivity|].
  intros H.
  specialize
    (H (Binary64.indicator
          ((Binary64.I 5 * Binary64.theta 7 + Binary64.theta 7)
           * Binary64.PI / Binary64.I 180)%double)
       (fun a => a)).
  apply (f_equal (Binary64.third_x_is (Binary64.I 350))) in H.
  vm_compute in H. discriminate H.
Qed.

(** C3, amended. On the doubles of the program, whatever the engine's
    cosine and sine: for a valid spec and [0 <= i < segments], the outer
    wedge [i] (child [2 + i]) is the triangle
    [C, P(i*theta, 140), P(i*theta + theta, 140)] filled with [spec.color]
    at opacity 0.8, and the inner wedge [i] (child [2 + segments + i]) spans
    the same angles at radius 84, which is [0.6 * 140] exactly, at opacity
    0.25, with [C = (210, 210)], [theta = 360 / segments],
    [P(a, r) = (210 + r cos(a pi / 180), 210 + r sin(a pi / 180))], [pi]
    the double [Math.PI] and every operation rounded to binary64. *)
Theorem primary_wedge_binary64
    (cos sin : PrimFloat.float -> PrimFloat.float)
    (spec : MandalaSpec) (watermark : bool) (i : Z) :
  valid_spec spec ->
  (0 <= i < segments spec)%Z ->
  let theta := Binary64.theta (segments spec) in
  let a := (Binary64.I i * theta)%double in
  nth_error (@generate _ (double_number cos sin) spec watermark)
            (2 + Z.to_nat i)
  = Some (polygon (key_of "ow" i)
            [ Binary64.C; Binary64.P cos sin a (Binary64.I 140);
              Binary64.P cos sin (a + theta)%double (Binary64.I 140) ]
            (color spec) 0.8 "none")
  /\ nth_error (@generate _ (double_number cos sin) spec watermark)
               (2 + Z.to_nat (segments spec) + Z.to_nat i)
     = Some (polygon (key_of "iw" i)
               [ Binary64.C; Binary64.P cos sin a (Binary64.I 84);
                 Binary64.P cos sin (a + theta)%double (Binary64.I 84) ]
               (color spec) 0.25 "none")
  /\ Binary64.C = {| x := Binary64.I 210; y := Binary64.I 210 |}
  /\ theta = (Binary64.I 360 / Binary64.I (segments spec))%double
  /\ Binary64.R_in = Binary64.I 84.
Proof.
  intros Hv Hi. cbv zeta. pose proof Hv as Hv'. unfold valid_spec in Hv'.
  pose proof (@outer_position _ (double_number cos sin) spec watermark
                (Z.to_nat i)) as Ho.
  pose proof (@inner_position _ (double_number cos sin) spec watermark
                (Z.to_nat i)) as Hn.
  rewrite Z2Nat.id in Ho, Hn by lia.
  rewrite Ho, Hn by lia.
  rewrite (@outer_wedge_double cos sin spec i Hv) by lia.
  rewrite (@inner_wedge_double cos sin spec i Hv) by lia.
  repeat split.
Qed.

Lemma primary_wedge_binary64_witness :
  valid_spec (spec_of_segments 7)
  /\ nth_error
       (@generate _ (double_number (fun a => a) (fun a => a))
          (spec_of_segments 7) false) 7
     = Some (polygon "ow-5"
               [ Binary64.C;
                 Binary64.P (fun a => a) (fun a => a)
                   (Binary64.I 5 * Binary64.theta 7)%double (Binary64.I 140);
                 Binary64.P (fun a => a) (fun a => a)
                   (Binary64.I 5 * Binary64.theta 7 + Binary64.theta 7)%double
                   (Binary64.I 140) ]
               "#ff7f50" 0.8 "none").
Proof.
  assert (V : valid_spec (spec_of_segments 7))
    by (unfold valid_spec; simpl; lia).
  split; [exact V|].
  assert (Hi : (0 <= 5 < segments (spec_of_segments 7))%Z) by (simpl; lia).
  exact (proj1 (@primary_wedge_binary64 (fun a => a) (fun a => a)
                  (spec_of_segments 7) false 5 V Hi)).
Defined.

(** C4, as the specification states it, fails on the doubles of the
    program. With seven segments, the end angle of the mirrored wedge 5 is
    computed as [-(5 * theta) - theta], which is not the double
    [-6 * theta]; the wedge the code emits is the claimed one only under a
    cosine and a sine that cannot tell the two arguments apart. *)
Lemma mirror_end_angle_is_not_next_start :
  valid_spec (with_segments mirror_spec 7)
  /\ PrimFloat.eqb
       (- (Binary64.I 5 * Binary64.theta 7) - Binary64.theta 7)%double
       (- Binary64.I 6 * Binary64.theta 7)%double = false
  /\ PrimFloat.eqb
       ((- (Binary64.I 5 * Binary64.theta 7) - Binary64.theta 7)
        * Binary64.PI / Binary64.I 180)%double
       (- Binary64.I 6 * Binary64.theta 7 * Binary64.PI
        / Binary64.I 180)%double
     = false
  /\ ~ (forall cos sin : PrimFloat.float -> PrimFloat.float,
          nth_error
            (@generate _ (double_number cos sin)
               (with_segments mirror_spec 7) false) 26
          = Some (Binary64.claimed_mirror_outer cos sin
                    (with_segments mirror_spec 7) 5)).
Proof.
  split; [unfold valid_spec; simpl; lia|].
  split; [vm_compute; reflexivity|]. split; [vm_compute; reflexivity|].
  intros H.
  specialize
    (H (Binary64.indicator
          ((- (Binary64.I 5 * Binary64.theta 7) - Binary64.theta 7)
           * Binary64.PI / Binary64.I 180)%double)
       (fun a => a)).
  apply (f_equal (Binary64.third_x_is (Binary64.I 350))) in H.
  vm_compute in H. discriminate H.
Qed.

(** C4, amended. On the doubles of the program, whatever the engine's
    cosine and sine: under mirror symmetry, for a valid spec and
    [0 <= i < segments], the generator also emits an outer wedge over the
    angles [-i * theta] and [-(i * theta) - theta] at opacity 0.6 (child
    [2 + 2 * segments + 2 * i]) and, right after it, an inner wedge over
    the same angles at opacity 0.15; both use the vertex formula [P] and
    the radii 140 and 84 of the primary wedges, every operation rounded to
    binary64. *)
Theorem mirror_wedge_binary64
    (cos sin : PrimFloat.float -> PrimFloat.float)
    (spec : MandalaSpec) (watermark : bool) (i : Z) :
  valid_spec spec ->
  symmetry spec = mirror ->
  (0 <= i < segments spec)%Z ->
  let theta := Binary64.theta (segments spec) in
  let q := (2 + 2 * Z.to_nat (segments spec) + 2 * Z.to_nat i)%nat in
  nth_error (@generate _ (double_number cos sin) spec watermark) q
  = Some (polygon (key_of "mw" i)
            [ Binary64.C;
              Binary64.P cos sin (- Binary64.I i * theta)%double
                         (Binary64.I 140);
              Binary64.P cos sin (- (Binary64.I i * theta) - theta)%double
                         (Binary64.I 140) ]
            (color spec) 0.6 "none")
  /\ nth_error (@generate _ (double_number cos sin) spec watermark) (q + 1)
     = Some (polygon (key_of "mi" i)
               [ Binary64.C;
                 Binary64.P cos sin (- Binary64.I i * theta)%double
                            (Binary64.I 84);
                 Binary64.P cos sin (- (Binary64.I i * theta) - theta)%double
                            (Binary64.I 84) ]
               (color spec) 0.15 "none").
Proof.
  intros Hv Hm Hi. cbv zeta. pose proof Hv as Hv'. unfold valid_spec in Hv'.
  destruct (@mirror_positions _ (double_number cos sin) spec watermark
              (Z.to_nat i) Hm) as [Ho Hn]; [lia|].
  rewrite Z2Nat.id in Ho, Hn by lia.
  rewrite Ho, Hn.
  rewrite (@mirror_outer_wedge_double cos sin spec i Hv) by lia.
  rewrite (@mirror_inner_wedge_double cos sin spec i Hv) by lia.
  split; reflexivity.
Qed.

Lemma mirror_wedge_binary64_witness :
  valid_spec (with_segments mirror_spec 7)
  /\ symmetry (with_segments mirror_spec 7) = mirror
  /\ nth_error
       (@generate _ (double_number (fun a => a) (fun a => a))
          (with_segments mirror_spec 7) true) 26
     = Some (polygon "mw-5"
               [ Binary64.C;
                 Binary64.P (fun a => a) (fun a => a)
                   (- Binary64.I 5 * Binary64.theta 7)%double
                   (Binary64.I 140);
                 Binary64.P (fun a => a) (fun a => a)
                   (- (Binary64.I 5 * Binary64.theta 7)
                    - Binary64.theta 7)%double
                   (Binary64.I 140) ]
               "#ff7f50" 0.6 "none").
Proof.
  assert (V : valid_spec (with_segments mirror_spec 7))
    by (unfold valid_spec; simpl; lia).
  split; [exact V|]. split; [reflexivity|].
  assert (Hi : (0 <= 5 < segments (with_segments mirror_spec 7))%Z)
    by (simpl; lia).
  exact (proj1 (@mirror_wedge_binary64 (fun a => a) (fun a => a)
                  (with_segments mirror_spec 7) true 5 V eq_refl Hi)).
Defined.

(** ** Mirrored wedges in binary64 *)

Lemma negated_arguments_checked :
  forallb (fun n => forallb (Binary64.negated_arguments n) (seq 0 n))
          (seq 3 46) = true.
Proof. vm_compute. reflexivity. Qed.

Lemma mirror_arguments (n i : Z) :
  (3 <= n <= 48)%Z -> (0 <= i < n)%Z ->
  Binary64.radians (- Binary64.I i * Binary64.theta n)%double
  = (- Binary64.radians (Binary64.I i * Binary64.theta n))%double
  /\ Binary64.radians
       (- (Binary64.I i * Binary64.theta n) - Binary64.theta n)%double
     = (- Binary64.radians
            (Binary64.I i * Binary64.theta n + Binary64.theta n))%double.
Proof.
  intros Hn Hi.
  pose proof negated_arguments_checked as Hall.
  rewrite forallb_forall in Hall.
  specialize (Hall (Z.to_nat n)).
  rewrite forallb_forall in Hall by (apply in_seq; lia).
  specialize (Hall ltac:(apply in_seq; lia) (Z.to_nat i)
                   ltac:(apply in_seq; lia)).
  unfold Binary64.negated_arguments in Hall. cbv zeta in Hall.
  rewrite !Z2Nat.id in Hall by lia.
  apply andb_true_iff in Hall. destruct Hall as [H1 H2].
  apply FloatAxioms.Leibniz.eqb_spec in H1.
  apply FloatAxioms.Leibniz.eqb_spec in H2.
  split; assumption.
Qed.

(** X19. On the doubles of the program, whatever the engine's cosine and
    sine: under mirror symmetry, for a valid spec and [0 <= i < segments],
    the mirrored outer and inner wedge [i] are the primary outer and inner
    wedge [i] with the arguments handed to [Math.cos] and [Math.sin]
    negated, exactly. *)
Theorem mirror_negates_arguments
    (cos sin : PrimFloat.float -> PrimFloat.float)
    (spec : MandalaSpec) (watermark : bool) (i : Z) :
  valid_spec spec ->
  symmetry spec = mirror ->
  (0 <= i < segments spec)%Z ->
  let n := Z.to_nat (segments spec) in
  let k := Z.to_nat i in
  let theta := Binary64.theta (segments spec) in
  let r1 := Binary64.radians (Binary64.I i * theta)%double in
  let r2 := Binary64.radians (Binary64.I i * theta + theta)%double in
  let scene := @generate _ (double_number cos sin) spec watermark in
  let at_ := Binary64.at_radians cos sin in
  nth_error scene (2 + k)
  = Some (polygon (key_of "ow" i)
            [ Binary64.C; at_ r1 (Binary64.I 140); at_ r2 (Binary64.I 140) ]
            (color spec) 0.8 "none")
  /\ nth_error scene (2 + 2 * n + 2 * k)
     = Some (polygon (key_of "mw" i)
               [ Binary64.C; at_ (- r1)%double (Binary64.I 140);
                 at_ (- r2)%double (Binary64.I 140) ]
               (color spec) 0.6 "none")
  /\ nth_error scene (2 + n + k)
     = Some (polygon (key_of "iw" i)
               [ Binary64.C; at_ r1 (Binary64.I 84); at_ r2 (Binary64.I 84) ]
               (color spec) 0.25 "none")
  /\ nth_error scene (2 + 2 * n + 2 * k + 1)
     = Some (polygon (key_of "mi" i)
               [ Binary64.C; at_ (- r1)%double (Binary64.I 84);
                 at_ (- r2)%double (Binary64.I 84) ]
               (color spec) 0.15 "none").
Proof.
  intros Hv Hm Hi. cbv zeta. pose proof Hv as Hv'. unfold valid_spec in Hv'.
  pose proof (@outer_position _ (double_number cos sin) spec watermark
                (Z.to_nat i)) as Ho.
  pose proof (@inner_position _ (double_number cos sin) spec watermark
                (Z.to_nat i)) as Hn.
  destruct (@mirror_positions _ (double_number cos sin) spec watermark
              (Z.to_nat i) Hm) as [Hmo Hmi]; [lia|].
  rewrite Z2Nat.id in Ho, Hn, Hmo, Hmi by lia.
  rewrite Ho, Hn, Hmo, Hmi by lia.
  rewrite (@outer_wedge_double cos sin spec i Hv) by lia.
  rewrite (@inner_wedge_double cos sin spec i Hv) by lia.
  rewrite (@mirror_outer_wedge_double cos sin spec i Hv) by lia.
  rewrite (@mirror_inner_wedge_double cos sin spec i Hv) by lia.
  destruct (@mirror_arguments (segments spec) i Hv' Hi) as [E1 E2].
  unfold Binary64.P. fold (Binary64.radians).
  change (fun a => (a * Binary64.PI / Binary64.I 180)%double)
    with Binary64.radians.
  unfold Binary64.at_radians.
  repeat split; unfold Binary64.radians in *; rewrite ?E1, ?E2; reflexivity.
Qed.

Lemma mirror_negates_arguments_witness :
  valid_spec mirror_spec
  /\ symmetry mirror_spec = mirror
  /\ nth_error
       (@generate _ (double_number (fun a => a) (fun a => a)) mirror_spec true)
       28
     = Some (polygon "mw-1"
               [ Binary64.C;
                 Binary64.at_radians (fun a => a) (fun a => a)
                   (- Binary64.radians
                        (Binary64.I 1 * Binary64.theta 12))%double
                   (Binary64.I 140);
                 Binary64.at_radians (fun a => a) (fun a => a)
                   (- Binary64.radians
                        (Binary64.I 1 * Binary64.theta 12
                         + Binary64.theta 12))%double
                   (Binary64.I 140) ]
               "#ff7f50" 0.6 "none").
Proof.
  assert (V : valid_spec mirror_spec) by (unfold valid_spec; simpl; lia).
  split; [exact V|]. split; [reflexivity|].
  assert (Hi : (0 <= 1 < segments mirror_spec)%Z) by (simpl; lia).
  exact (proj1 (proj2 (@mirror_negates_arguments (fun a => a) (fun a => a)
                         mirror_spec true 1 V eq_refl Hi))).
Defined.

(** ** The exporter *)

Lemma move_children_all (cs : list node) :
  forall (fuel : nat) (ns t : string) (a : list (string * string))
         (ns' t' : string) (a' : list (string * string)) (cs' : list node),
    (List.length cs <= fuel)%nat ->
    move_children fuel (Element ns t a cs) (Element ns' t' a' cs')
    = (Element ns t a [], Element ns' t' a' (cs' ++ cs)).
Proof.
  induction cs as [|c cs IH]; intros fuel ns t a ns' t' a' cs' Hfuel.
  - rewrite app_nil_r. destruct fuel; reflexivity.
  - destruct fuel as [|fuel]; [simpl in Hfuel; lia|].
    cbn [move_children firstChild childNodes_of removeFirstChild appendChild tl].
    rewrite IH by (simpl in Hfuel; lia).
    now rewrite <- app_assoc.
Qed.

Lemma export_document_root (el : node) :
  export_document el
  = Element SVG_NS "svg"
      [ ("xmlns", SVG_NS); ("width", "420"); ("height", "420");
        ("viewBox", "0 0 420 420") ]%string
      (childNodes_of el).
Proof.
  unfold export_document. destruct el as [ns t a cs | d].
  - cbn [cloneNode childNodes_of createElementNS setAttribute set_attribute
         String.eqb Ascii.eqb Bool.eqb].
    rewrite move_children_all by lia. reflexivity.
  - reflexivity.
Qed.

Lemma lookup_url_filter (url : string) (l : list (string * Blob)) :
  lookup_url url (filter (fun e => negb (String.eqb (fst e) url)) l) = None.
Proof.
  induction l as [|[u b] l IH]; [reflexivity|].
  cbn [filter fst]. destruct (String.eqb u url) eqn:E; cbn [negb].
  - exact IH.
  - cbn [lookup_url]. now rewrite E.
Qed.

Section ExportFacts.
Variable serializeToString : node -> string.
Variable click_raises : Anchor -> bool.

(** What one export does to the world, step by step. *)
Lemma exportSVG_run (el : node) (w : World) :
  let url := url_of (next_url w) in
  let a := {| href := url; download := "mandala.svg" |} in
  let blob := export_blob serializeToString el in
  exportSVG serializeToString click_raises (Some el) w
  = if click_raises a
    then (Raised "click",
          {| events := events w ++ [CreateObjectURL blob url;
                                    BodyAppendChild a; Click a];
             objectURLs := (url, blob) :: objectURLs w;
             body := body w ++ [a];
             downloads := downloads w;
             next_url := S (next_url w) |})
    else (Returned tt,
          {| events := events w ++ [CreateObjectURL blob url;
                                    BodyAppendChild a; Click a; Remove a;
                                    RevokeObjectURL url];
             objectURLs :=
               filter (fun e => negb (String.eqb (fst e) url))
                      ((url, blob) :: objectURLs w);
             body := filter (fun b => negb (Anchor_eqb a b)) (body w ++ [a]);
             downloads := downloads w ++ [a];
             next_url := S (next_url w) |}).
Proof.
  cbv zeta. unfold exportSVG, bind, createObjectURL, body_appendChild, click,
    remove, revokeObjectURL.
  cbn [events objectURLs body downloads next_url].
  destruct (click_raises _); cbn [events objectURLs body downloads next_url];
    rewrite <- ?app_assoc; reflexivity.
Qed.
End ExportFacts.

(** C6. With no mounted render ([svgRef.current] is null) [exportSVG]
    returns normally and leaves the world as it found it: no blob and no
    object URL is created, nothing is added to the page, and the anchor is
    never clicked. *)
Theorem export_without_render_is_noop (serializeToString : node -> string)
    (click_raises : Anchor -> bool) (w : World) :
  exportSVG serializeToString click_raises None w = (Returned tt, w)
  /\ events (snd (exportSVG serializeToString click_raises None w))
     = events w
  /\ objectURLs (snd (exportSVG serializeToString click_raises None w))
     = objectURLs w
  /\ downloads (snd (exportSVG serializeToString click_raises None w))
     = downloads w.
Proof. repeat split. Qed.

(** C7. With a mounted render, the exported root is an [svg] element in
    the SVG namespace with the attributes [xmlns], [width="420"],
    [height="420"] and [viewBox="0 0 420 420"]; its children are the
    children of the mounted element, in their order, whatever they are (the
    spec is not consulted); the blob holds the serialisation of that root
    under the media type [image/svg+xml]; and the anchor that is clicked
    carries the blob's URL and the filename [mandala.svg]. *)
Theorem export_document_shape (serializeToString : node -> string)
    (click_raises : Anchor -> bool) (el : node) (w : World) :
  let doc := export_document el in
  let blob := {| parts := [serializeToString doc];
                 type := "image/svg+xml;charset=utf-8" |} in
  let url := url_of (next_url w) in
  let a := {| href := url; download := "mandala.svg" |} in
  let w' := snd (exportSVG serializeToString click_raises (Some el) w) in
  namespace_of doc = Some SVG_NS
  /\ tagName_of doc = Some "svg"%string
  /\ attributes_of doc
     = [ ("xmlns", SVG_NS); ("width", "420"); ("height", "420");
         ("viewBox", "0 0 420 420") ]%string
  /\ childNodes_of doc = childNodes_of el
  /\ firstn 3 (skipn (List.length (events w)) (events w'))
     = [ CreateObjectURL blob url; BodyAppendChild a; Click a ]
  /\ media_type (type blob) = "image/svg+xml"%string
  /\ (if click_raises a then downloads w' = downloads w
      else downloads w' = downloads w ++ [a]).
Proof.
  cbv zeta. rewrite exportSVG_run. cbv zeta.
  rewrite export_document_root.
  cbn [namespace_of tagName_of attributes_of childNodes_of type].
  repeat split.
  - unfold export_blob. rewrite export_document_root.
    destruct (click_raises _); cbn [snd events];
      rewrite skipn_app, skipn_all, Nat.sub_diag; reflexivity.
  - destruct (click_raises _); reflexivity.
Qed.

(** C8, as the specification states it, fails: when activating the anchor
    raises, the export ends there and the object URL stays live. *)
Lemma url_leaks_when_click_raises :
  fst (exportSVG (fun _ => "<svg/>"%string) (fun _ => true)
         (Some (mounted_svg [])) empty_world)
  = Raised "click"
  /\ objectURLs (snd (exportSVG (fun _ => "<svg/>"%string) (fun _ => true)
                        (Some (mounted_svg [])) empty_world))
     = [ ("blob:0"%string,
          {| parts := ["<svg/>"%string];
             type := "image/svg+xml;charset=utf-8" |}) ]
  /\ ~ url_released (fun _ => "<svg/>"%string) (fun _ => true)
         (mounted_svg []) empty_world.
Proof.
  split; [reflexivity|]. split; [reflexivity|].
  unfold url_released. vm_compute. discriminate.
Qed.

(** C8, amended. When activating the anchor returns, the object URL is
    created before the click, the anchor is removed and the URL revoked
    right after it, and the URL is no longer live at the end. Nothing guards
    the click: when it raises, [exportSVG] raises with it, having made no
    further call, and the URL is still live. *)
Theorem export_url_lifetime (serializeToString : node -> string)
    (click_raises : Anchor -> bool) (el : node) (w : World) :
  let url := url_of (next_url w) in
  let a := {| href := url; download := "mandala.svg" |} in
  let blob := export_blob serializeToString el in
  let run := exportSVG serializeToString click_raises (Some el) w in
  (click_raises a = false ->
     fst run = Returned tt
     /\ events (snd run)
        = events w ++ [ CreateObjectURL blob url; BodyAppendChild a; Click a;
                        Remove a; RevokeObjectURL url ]
     /\ url_released serializeToString click_raises el w)
  /\ (click_raises a = true ->
        fst run = Raised "click"
        /\ events (snd run)
           = events w ++ [ CreateObjectURL blob url; BodyAppendChild a;
                           Click a ]
        /\ lookup_url url (objectURLs (snd run)) = Some blob).
Proof.
  cbv zeta. unfold url_released. rewrite exportSVG_run. cbv zeta.
  split; intros ->; cbn [fst snd events objectURLs].
  - repeat split. apply lookup_url_filter.
  - repeat split. cbn [lookup_url]. now rewrite String.eqb_refl.
Qed.

Lemma export_url_lifetime_witness :
  (let run := exportSVG (fun _ => "<svg/>"%string) (fun _ => false)
                (Some (mounted_svg [])) empty_world in
   fst run = Returned tt
   /\ events (snd run)
      = [ CreateObjectURL {| parts := ["<svg/>"%string];
                             type := "image/svg+xml;charset=utf-8" |}
                          "blob:0";
          BodyAppendChild {| href := "blob:0"; download := "mandala.svg" |};
          Click {| href := "blob:0"; download := "mandala.svg" |};
          Remove {| href := "blob:0"; download := "mandala.svg" |};
          RevokeObjectURL "blob:0" ]
   /\ url_released (fun _ => "<svg/>"%string) (fun _ => false)
        (mounted_svg []) empty_world)
  /\ (let run := exportSVG (fun _ => "<svg/>"%string) (fun _ => true)
                   (Some (mounted_svg [])) empty_world in
      fst run = Raised "click"
      /\ events (snd run)
         = [ CreateObjectURL {| parts := ["<svg/>"%string];
                                type := "image/svg+xml;charset=utf-8" |}
                             "blob:0";
             BodyAppendChild {| href := "blob:0"; download := "mandala.svg" |};
             Click {| href := "blob:0"; download := "mandala.svg" |} ]
      /\ lookup_url "blob:0" (objectURLs (snd run))
         = Some {| parts := ["<svg/>"%string];
                   type := "image/svg+xml;charset=utf-8" |}).
Proof.
  split.
  - exact (proj1 (export_url_lifetime (fun _ => "<svg/>"%string)
                    (fun _ => false) (mounted_svg []) empty_world) eq_refl).
  - exact (proj2 (export_url_lifetime (fun _ => "<svg/>"%string)
                    (fun _ => true) (mounted_svg []) empty_world) eq_refl).
Defined.

(** ** The cart *)

Section CartFacts.
Variable item : StoreItem.t.

Let bump (p : CartItem.t) : CartItem.t :=
  if same_id item p then one_more p else p.

Lemma find_none_filter (prev : list CartItem.t) :
  find (same_id item) prev = None -> filter (same_id item) prev = [].
Proof.
  induction prev as [|p l IH]; [reflexivity|].
  cbn [find filter]. destruct (same_id item p); [discriminate | exact IH].
Qed.

Lemma find_some_filter (prev : list CartItem.t) (found : CartItem.t) :
  find (same_id item) prev = Some found ->
  (1 <= List.length (filter (same_id item) prev))%nat.
Proof.
  induction prev as [|p l IH]; [discriminate|].
  cbn [find filter]. destruct (same_id item p); cbn [List.length]; [lia|].
  exact IH.
Qed.

Lemma ids_of_bumped (prev : list CartItem.t) :
  map CartItem.id (map bump prev) = map CartItem.id prev.
Proof.
  rewrite map_map. apply map_ext. intros p. unfold bump.
  now destruct (same_id item p).
Qed.

Lemma unique_match (prev : list CartItem.t) :
  NoDup (map CartItem.id prev) ->
  (List.length (filter (same_id item) prev) <= 1)%nat.
Proof.
  induction prev as [|p l IH]; intros Hnd; [simpl; lia|].
  cbn [map] in Hnd. inversion Hnd as [|? ? Hnotin Hnd']; subst.
  cbn [filter]. destruct (same_id item p) eqn:E; [|now apply IH].
  cbn [List.length].
  enough (Hnil : filter (same_id item) l = []) by (rewrite Hnil; simpl; lia).
  destruct (filter (same_id item) l) as [|q r] eqn:F; [reflexivity|].
  exfalso. apply Hnotin.
  assert (Hq : In q (filter (same_id item) l)) by (rewrite F; now left).
  apply filter_In in Hq. destruct Hq as [Hin Hsame].
  unfold same_id in E, Hsame.
  apply String.eqb_eq in E. apply String.eqb_eq in Hsame.
  rewrite E, <- Hsame. now apply in_map.
Qed.

Lemma quantity_of_app (id : string) (l l' : list CartItem.t) :
  quantity_of id (l ++ l') = (quantity_of id l + quantity_of id l')%Z.
Proof.
  induction l as [|p l IH]; [reflexivity|].
  cbn [app quantity_of fold_right]. fold (quantity_of id (l ++ l')).
  fold (quantity_of id l). rewrite IH.
  destruct (String.eqb (CartItem.id p) id); lia.
Qed.

Lemma quantity_of_bumped (id : string) (prev : list CartItem.t) :
  quantity_of id (map bump prev)
  = (quantity_of id prev
     + if String.eqb id (StoreItem.id item)
       then Z.of_nat (List.length (filter (same_id item) prev))
       else 0)%Z.
Proof.
  induction prev as [|p l IH].
  - cbn. destruct (String.eqb id (StoreItem.id item)); reflexivity.
  - cbn [map quantity_of fold_right filter].
    fold (quantity_of id (map bump l)). fold (quantity_of id l). rewrite IH.
    unfold bump at 1 2, same_id.
    destruct (String.eqb_spec (CartItem.id p) (StoreItem.id item)) as [Hp|Hp];
      cbn [one_more CartItem.id CartItem.quantity];
      destruct (String.eqb_spec (CartItem.id p) id) as [Hi|Hi];
      destruct (String.eqb_spec id (StoreItem.id item)) as [Hj|Hj];
      cbn [List.length]; try lia; congruence.
Qed.

Lemma fold_total (l : list CartItem.t) (a : Q) :
  fold_left
    (fun sum it => sum + CartItem.price it * inject_Z (CartItem.quantity it))
    l a
  == a + cartTotal l.
Proof.
  unfold cartTotal. revert a.
  induction l as [|p l IH]; intros a; cbn [fold_left]; [ring|].
  rewrite IH, (IH (0 + _)). ring.
Qed.

Lemma cartTotal_cons (p : CartItem.t) (l : list CartItem.t) :
  cartTotal (p :: l)
  == CartItem.price p * inject_Z (CartItem.quantity p) + cartTotal l.
Proof. unfold cartTotal at 1. cbn [fold_left]. rewrite fold_total. ring. Qed.

Lemma cartTotal_app (l l' : list CartItem.t) :
  cartTotal (l ++ l') == cartTotal l + cartTotal l'.
Proof.
  induction l as [|p l IH]; cbn [app].
  - unfold cartTotal at 2. cbn. ring.
  - rewrite !cartTotal_cons, IH. ring.
Qed.

Lemma cartTotal_bumped (prev : list CartItem.t) :
  (forall p, In p prev -> same_id item p = true ->
             CartItem.price p == StoreItem.price item) ->
  cartTotal (map bump prev)
  == cartTotal prev
     + StoreItem.price item
       * inject_Z (Z.of_nat (List.length (filter (same_id item) prev))).
Proof.
  induction prev as [|p l IH]; intros Hprice.
  - cbn. ring.
  - cbn [map filter]. rewrite !cartTotal_cons, IH
      by (intros q Hq; apply Hprice; now right).
    unfold bump at 1 2.
    destruct (same_id item p) eqn:E.
    + cbn [one_more CartItem.price CartItem.quantity List.length].
      rewrite (Hprice p (or_introl eq_refl) E).
      rewrite Nat2Z.inj_succ. unfold Z.succ. rewrite !inject_Z_plus. ring.
    + ring.
Qed.

(** X2. Adding an item keeps the product ids of the cart pairwise
    distinct. *)
Theorem add_item_keeps_ids_distinct (prev : list CartItem.t) :
  NoDup (map CartItem.id prev) ->
  NoDup (map CartItem.id (add_item item prev)).
Proof.
  intros Hnd. unfold add_item.
  destruct (find (same_id item) prev) as [found|] eqn:F.
  - change (NoDup (map CartItem.id (map bump prev))).
    now rewrite ids_of_bumped.
  - rewrite map_app. cbn [map CartItem.id].
    apply NoDup_app; [exact Hnd | repeat constructor; intros [] |].
    intros id Hin [<-|[]].
    apply in_map_iff in Hin. destruct Hin as [p [Hid Hp]].
    apply find_none with (x := p) in F; [|exact Hp].
    unfold same_id in F. rewrite Hid, String.eqb_refl in F. discriminate.
Qed.

(** X3. In a cart with distinct ids, adding an item raises the units of
    that product by exactly one, whether it was in the cart or not, and
    leaves the units of every other product as they were. *)
Theorem add_item_quantity (prev : list CartItem.t) (id : string) :
  NoDup (map CartItem.id prev) ->
  quantity_of id (add_item item prev)
  = (quantity_of id prev
     + if String.eqb id (StoreItem.id item) then 1 else 0)%Z.
Proof.
  intros Hnd. unfold add_item.
  destruct (find (same_id item) prev) as [found|] eqn:F.
  - fold bump.
    rewrite quantity_of_bumped.
    pose proof (@find_some_filter _ _ F). pose proof (@unique_match prev Hnd).
    replace (List.length (filter (same_id item) prev)) with 1%nat by lia.
    reflexivity.
  - rewrite quantity_of_app. f_equal.
    cbn. rewrite String.eqb_sym.
    destruct (String.eqb id (StoreItem.id item)); reflexivity.
Qed.

(** X4. In a cart with distinct ids whose entry for the product, if any,
    carries the product's price, adding an item raises the total by that
    price (in exact arithmetic). *)
Theorem add_item_total (prev : list CartItem.t) :
  NoDup (map CartItem.id prev) ->
  (forall p, In p prev -> same_id item p = true ->
             CartItem.price p == StoreItem.price item) ->
  cartTotal (add_item item prev) == cartTotal prev + StoreItem.price item.
Proof.
  intros Hnd Hprice. unfold add_item.
  destruct (find (same_id item) prev) as [found|] eqn:F.
  - fold bump.
    rewrite (@cartTotal_bumped prev Hprice).
    pose proof (@find_some_filter _ _ F). pose proof (@unique_match prev Hnd).
    replace (List.length (filter (same_id item) prev)) with 1%nat by lia.
    change (inject_Z (Z.of_nat 1)) with 1. ring.
  - rewrite cartTotal_app, cartTotal_cons.
    cbn [CartItem.price CartItem.quantity].
    change (cartTotal []) with 0. change (inject_Z 1) with 1. ring.
Qed.
End CartFacts.

Lemma add_item_keeps_ids_distinct_witness :
  NoDup (map CartItem.id (cart state_b))
  /\ NoDup (map CartItem.id (add_item print_a4 (cart state_b)))
  /\ NoDup (map CartItem.id (add_item print_a4 [])).
Proof.
  assert (H0 : NoDup (map CartItem.id (cart state_b)))
    by (repeat constructor; simpl; intuition discriminate).
  split; [exact H0|]. split.
  - exact (@add_item_keeps_ids_distinct print_a4 _ H0).
  - exact (@add_item_keeps_ids_distinct print_a4 [] (NoDup_nil _)).
Defined.

Lemma add_item_quantity_witness :
  NoDup (map CartItem.id (cart state_b))
  /\ quantity_of "print-a4" (cart state_b) = 2%Z
  /\ quantity_of "print-a4" (add_item print_a4 (cart state_b)) = 3%Z
  /\ quantity_of "svg-asset" (add_item print_a4 (cart state_b)) = 0%Z.
Proof.
  assert (H0 : NoDup (map CartItem.id (cart state_b)))
    by (repeat constructor; simpl; intuition discriminate).
  split; [exact H0|]. split; [reflexivity|]. split.
  - exact (@add_item_quantity print_a4 _ "print-a4" H0).
  - exact (@add_item_quantity print_a4 _ "svg-asset" H0).
Defined.

Lemma add_item_total_witness :
  NoDup (map CartItem.id (cart state_b))
  /\ cartTotal (add_item print_a4 (cart state_b))
     == cartTotal (cart state_b) + 39.
Proof.
  assert (H0 : NoDup (map CartItem.id (cart state_b)))
    by (repeat constructor; simpl; intuition discriminate).
  split; [exact H0|].
  apply (@add_item_total print_a4 _ H0).
  intros p [<-|[]] _. reflexivity.
Defined.

(** ** Checkout *)

(** X5. A click on Checkout starts a checkout exactly when the cart is not
    empty and no checkout is processing; otherwise it changes nothing. A
    second click right after any click starts nothing and changes
    nothing. *)
Theorem checkout_click_once (st : AppState) :
  (fst (click_checkout st) = true
   <-> cart st <> [] /\ is_processing (checkoutState st) = false)
  /\ (fst (click_checkout st) = false -> snd (click_checkout st) = st)
  /\ click_checkout (snd (click_checkout st))
     = (false, snd (click_checkout st)).
Proof.
  unfold click_checkout, checkout_start.
  destruct (is_processing (checkoutState st)) eqn:P.
  - cbn [fst snd]. rewrite P. split; [|split].
    + split; [discriminate | intros [_ H]; discriminate].
    + intros _. reflexivity.
    + reflexivity.
  - destruct (cart st) as [|c l] eqn:C; cbn [fst snd].
    + rewrite P, C. split; [|split].
      * split; [discriminate | intros [H _]; now contradiction H].
      * intros _. reflexivity.
      * reflexivity.
    + cbn [set_checkoutState checkoutState is_processing].
      split; [|split].
      * split; [intros _; split; [discriminate | reflexivity] | reflexivity].
      * discriminate.
      * reflexivity.
Qed.

(** ** Uploads *)

Lemma upload_fold (now : Z -> Z) (post : list string) :
  forall (pre : list string) (acc : list Asset.t),
    fold_left
      (fun next k => upload_body now (pre ++ post) (Z.of_nat k) next)
      (seq (List.length pre) (List.length post)) acc
    = acc ++ uploaded_from now (List.length pre) post.
Proof.
  induction post as [|f post IH]; intros pre acc.
  - cbn. now rewrite app_nil_r.
  - cbn [List.length seq fold_left uploaded_from].
    unfold upload_body at 2. rewrite Nat2Z.id.
    rewrite nth_error_app2, Nat.sub_diag by lia. cbn [nth_error].
    replace (pre ++ f :: post) with ((pre ++ [f]) ++ post)
      by (now rewrite <- app_assoc).
    replace (S (List.length pre)) with (List.length (pre ++ [f]))
      by (rewrite length_app; cbn; lia).
    rewrite IH. unfold push, uploaded. rewrite <- app_assoc. reflexivity.
Qed.

Lemma upload_loop (now : Z -> Z) (fs : list string) :
  for_range (Z.of_nat (List.length fs)) (upload_body now fs) []
  = uploaded_from now 0 fs.
Proof.
  rewrite for_range_fold, Nat2Z.id.
  exact (upload_fold now fs [] []).
Qed.

Lemma uploaded_from_names (now : Z -> Z) (fs : list string) :
  forall k : nat,
    map Asset.name (uploaded_from now k fs) = fs
    /\ Forall (fun a => Asset.tags a = [] /\ Asset.url a = None)
              (uploaded_from now k fs).
Proof.
  induction fs as [|f fs IH]; intros k; cbn [uploaded_from map].
  - split; constructor.
  - destruct (IH (S k)) as [Hn Ht]. split.
    + cbn [uploaded Asset.name]. now rewrite Hn.
    + constructor; [now split | exact Ht].
Qed.

(** X6. An upload appends to the asset list, in the order of the chosen
    files, one asset per file, named after the file, without tags and
    without url; the assets already there stay in front, unchanged. With no
    file list or an empty one the asset list is unchanged. *)
Theorem upload_appends (now : Z -> Z) (files : option (list string))
    (prev : list Asset.t) :
  exists next : list Asset.t,
    onBulkUpload now files prev = prev ++ next
    /\ map Asset.name next = match files with Some fs => fs | None => [] end
    /\ Forall (fun a => Asset.tags a = [] /\ Asset.url a = None) next.
Proof.
  destruct files as [[|f fs]|].
  - exists []. cbn. rewrite app_nil_r. repeat split; constructor.
  - exists (uploaded_from now 0 (f :: fs)).
    unfold onBulkUpload. rewrite upload_loop.
    split; [reflexivity | apply uploaded_from_names].
  - exists []. cbn. rewrite app_nil_r. repeat split; constructor.
Qed.

(** Digits carry no dash. *)
Lemma no_dash_digits (d : Decimal.uint) :
  no_dash (NilEmpty.string_of_uint d) = true.
Proof. induction d; cbn; assumption || reflexivity. Qed.

Lemma no_dash_nonneg (z : Z) : (0 <= z)%Z -> no_dash (string_of_Z z) = true.
Proof.
  intros Hz. unfold string_of_Z. destruct z as [|p|p]; [reflexivity| |lia].
  cbn [Z.to_int NilZero.string_of_int]. unfold NilZero.string_of_uint.
  destruct (Pos.to_uint p); try reflexivity; apply no_dash_digits.
Qed.

Lemma dash_in_append (a b : string) :
  no_dash (a ++ String "-" b) = false.
Proof.
  induction a as [|c a IH]; cbn; [reflexivity|].
  rewrite IH. apply andb_false_r.
Qed.

(** What follows the last dash decides an id. *)
Lemma after_last_dash (p1 : string) :
  forall p2 d1 d2 : string,
    no_dash d1 = true -> no_dash d2 = true ->
    (p1 ++ String "-" d1 = p2 ++ String "-" d2)%string -> d1 = d2.
Proof.
  induction p1 as [|c p1 IH]; intros [|c2 p2] d1 d2 H1 H2 Heq; cbn in Heq.
  - now injection Heq.
  - injection Heq as _ Hd. rewrite Hd, dash_in_append in H1. discriminate.
  - injection Heq as _ Hd. rewrite <- Hd, dash_in_append in H2. discriminate.
  - injection Heq as _ Hr. exact (IH p2 d1 d2 H1 H2 Hr).
Qed.

Lemma string_of_Z_inj (a b : Z) : string_of_Z a = string_of_Z b -> a = b.
Proof.
  unfold string_of_Z. intros Heq.
  assert (Hn : forall z, Z.to_int z <> Decimal.Pos Decimal.Nil
                         /\ Z.to_int z <> Decimal.Neg Decimal.Nil).
  { intros [|p|p]; cbn; split; try discriminate;
      intros [= E]; exact (DecimalPos.Unsigned.to_uint_nonnil p E). }
  apply DecimalZ.to_int_inj.
  assert (Hs : Some (Z.to_int a) = Some (Z.to_int b)).
  { rewrite <- (NilZero.isi (Z.to_int a)), <- (NilZero.isi (Z.to_int b))
      by apply Hn. now rewrite Heq. }
  now injection Hs.
Qed.

Lemma uploaded_id_index (now : Z -> Z) (i j : Z) (f g : string) :
  (0 <= i)%Z -> (0 <= j)%Z ->
  Asset.id (uploaded now i f) = Asset.id (uploaded now j g) -> i = j.
Proof.
  intros Hi Hj Heq. cbn [uploaded Asset.id] in Heq.
  apply string_of_Z_inj.
  change ((String "a" (String "s" (String "s" (String "e" (String "t"
            (String "-" (string_of_Z (now i) ++ String "-" (string_of_Z i))))))))
          = (String "a" (String "s" (String "s" (String "e" (String "t"
            (String "-" (string_of_Z (now j) ++ String "-" (string_of_Z j)))))))))%string
    in Heq.
  injection Heq as Heq.
  exact (@after_last_dash _ _ _ _ (no_dash_nonneg Hi) (no_dash_nonneg Hj) Heq).
Qed.

Lemma uploaded_from_ids (now : Z -> Z) (fs : list string) :
  forall (k : nat) (a : Asset.t),
    In a (uploaded_from now k fs) ->
    exists (j : nat) (f : string),
      (k <= j)%nat /\ Asset.id a = Asset.id (uploaded now (Z.of_nat j) f).
Proof.
  induction fs as [|f fs IH]; intros k a Hin; [contradiction|].
  destruct Hin as [<-|Hin].
  - exists k, f. split; [lia | reflexivity].
  - destruct (IH (S k) a Hin) as (j & g & Hj & Hid).
    exists j, g. split; [lia | exact Hid].
Qed.

Lemma uploaded_from_distinct (now : Z -> Z) (fs : list string) :
  forall k : nat, NoDup (map Asset.id (uploaded_from now k fs)).
Proof.
  induction fs as [|f fs IH]; intros k; cbn [uploaded_from map];
    constructor; [|apply IH].
  intros Hin. apply in_map_iff in Hin. destruct Hin as (a & Hid & Ha).
  destruct (uploaded_from_ids now fs (S k) a Ha) as (j & g & Hj & Hid').
  rewrite Hid' in Hid.
  apply uploaded_id_index in Hid; lia.
Qed.

(** X7. The assets of one upload get pairwise distinct ids, whatever the
    clock returns from one file to the next. *)
Theorem upload_ids_distinct (now : Z -> Z) (fs : list string) :
  NoDup (map Asset.id (onBulkUpload now (Some fs) [])).
Proof.
  destruct fs as [|f fs]; [constructor|].
  unfold onBulkUpload. rewrite upload_loop. cbn [app].
  apply uploaded_from_distinct.
Qed.

(** X8. Ids are not distinct across uploads: two uploads under a clock
    that has not moved give their first assets the same id. *)
Theorem upload_ids_collide (t : Z) (f g : string) (prev : list Asset.t) :
  exists a b : Asset.t,
    onBulkUpload (fun _ => t) (Some [g])
      (onBulkUpload (fun _ => t) (Some [f]) prev)
    = prev ++ [a; b]
    /\ Asset.id a = Asset.id b
    /\ Asset.name a = f /\ Asset.name b = g.
Proof.
  exists (uploaded (fun _ => t) 0 f), (uploaded (fun _ => t) 0 g).
  unfold onBulkUpload. rewrite !upload_loop. cbn [uploaded_from].
  rewrite <- app_assoc. repeat split.
Qed.

(** ** Tags *)

Lemma split_nonempty (sep : ascii) (s : string) : split sep s <> [].
Proof.
  destruct s as [|c r]; cbn [split]; [discriminate|].
  destruct (Ascii.eqb c sep); [discriminate|].
  destruct (split sep r); discriminate.
Qed.

Lemma split_head (c : ascii) (r : string) :
  Ascii.eqb c "," = false ->
  exists (h : string) (t : list string),
    split "," r = h :: t /\ split "," (String c r) = String c h :: t.
Proof.
  intros Hc. cbn [split]. rewrite Hc.
  destruct (split "," r) as [|h t] eqn:E; [now apply split_nonempty in E|].
  now exists h, t.
Qed.

Lemma split_clean_prefix (t r : string) :
  no_comma t = true ->
  split "," (t ++ String "," r) = t :: split "," r.
Proof.
  induction t as [|c t IH]; intros Hn; [reflexivity|].
  cbn [no_comma] in Hn. apply andb_true_iff in Hn. destruct Hn as [Hc Hn].
  apply negb_true_iff in Hc.
  cbn [append split]. rewrite Hc, (IH Hn). reflexivity.
Qed.

Lemma split_without_comma (t : string) :
  no_comma t = true -> split "," t = [t].
Proof.
  induction t as [|c t IH]; intros Hn; [reflexivity|].
  cbn [no_comma] in Hn. apply andb_true_iff in Hn. destruct Hn as [Hc Hn].
  apply negb_true_iff in Hc.
  cbn [split]. rewrite Hc, (IH Hn). reflexivity.
Qed.

Lemma split_pieces_no_comma (s : string) :
  Forall (fun t => no_comma t = true) (split "," s).
Proof.
  induction s as [|c r IH]; cbn [split]; [repeat constructor|].
  destruct (Ascii.eqb c ",") eqn:Hc; [now constructor|].
  destruct (split "," r) as [|h t]; [repeat constructor; cbn; now rewrite Hc|].
  inversion IH as [|? ? Hh Ht]; subst.
  constructor; [cbn; now rewrite Hc, Hh | exact Ht].
Qed.

Lemma split_trailing_comma (s : string) :
  split "," (s ++ ",") = split "," s ++ [EmptyString].
Proof.
  induction s as [|c r IH]; [reflexivity|].
  cbn [append split]. rewrite IH.
  destruct (Ascii.eqb c ","); [reflexivity|].
  destruct (split "," r) as [|h t] eqn:E; [now apply split_nonempty in E|].
  reflexivity.
Qed.

Lemma trimStart_no_comma (s : string) :
  no_comma s = true -> no_comma (trimStart s) = true.
Proof.
  induction s as [|c r IH]; intros Hn; [reflexivity|].
  cbn [trimStart]. destruct (is_white c); [|exact Hn].
  cbn [no_comma] in Hn. apply andb_true_iff in Hn. now apply IH.
Qed.

Lemma trimEnd_no_comma (s : string) :
  no_comma s = true -> no_comma (trimEnd s) = true.
Proof.
  induction s as [|c r IH]; intros Hn; [reflexivity|].
  cbn [no_comma] in Hn. apply andb_true_iff in Hn. destruct Hn as [Hc Hn].
  cbn [trimEnd]. specialize (IH Hn).
  destruct (trimEnd r) as [|c' r'].
  - destruct (is_white c); cbn; [reflexivity | now rewrite Hc].
  - cbn [no_comma] in *. now rewrite Hc, IH.
Qed.

Lemma trimEnd_idempotent (s : string) : trimEnd (trimEnd s) = trimEnd s.
Proof.
  induction s as [|c r IH]; [reflexivity|].
  cbn [trimEnd]. destruct (trimEnd r) as [|c' r'] eqn:E.
  - destruct (is_white c) eqn:W; [reflexivity|]. cbn [trimEnd]. now rewrite W.
  - cbn [trimEnd]. cbn [trimEnd] in IH. rewrite IH. reflexivity.
Qed.

Lemma trimStart_starts_clean (s : string) : starts_clean (trimStart s).
Proof.
  induction s as [|c r IH]; [exact I|].
  cbn [trimStart]. destruct (is_white c) eqn:W; [exact IH | exact W].
Qed.

Lemma trimStart_of_clean (s : string) : starts_clean s -> trimStart s = s.
Proof. destruct s as [|c r]; [reflexivity|]. cbn. now intros ->. Qed.

Lemma trimEnd_starts_clean (s : string) :
  starts_clean s -> starts_clean (trimEnd s).
Proof.
  destruct s as [|c r]; [trivial|]. cbn [starts_clean trimEnd]. intros W.
  destruct (trimEnd r); [rewrite W|]; exact W.
Qed.

Lemma trim_idempotent (s : string) : trim (trim s) = trim s.
Proof.
  unfold trim.
  rewrite (@trimStart_of_clean _
             (@trimEnd_starts_clean _ (trimStart_starts_clean s))).
  apply trimEnd_idempotent.
Qed.

Lemma trim_no_comma (s : string) : no_comma s = true -> no_comma (trim s) = true.
Proof. intros Hn. unfold trim. now apply trimEnd_no_comma, trimStart_no_comma. Qed.

Lemma parse_tags_after_space (r : string) :
  parse_tags (String " " r) = parse_tags r.
Proof.
  unfold parse_tags.
  destruct (@split_head " " r eq_refl) as (h & t & Hr & Hs).
  rewrite Hr, Hs. reflexivity.
Qed.

Lemma parse_tags_clean_prefix (t r : string) :
  clean_tag t ->
  parse_tags (t ++ String "," r) = t :: parse_tags r.
Proof.
  intros (Hne & Hnc & Htrim). unfold parse_tags.
  rewrite (@split_clean_prefix _ r Hnc). cbn [map filter].
  now rewrite Htrim, Hne.
Qed.

(** X9. What [parse_tags] returns is clean: no tag is empty, holds a comma,
    or starts or ends with white space. *)
Theorem parse_tags_clean (value : string) :
  Forall clean_tag (parse_tags value).
Proof.
  unfold parse_tags. apply Forall_forall. intros t Ht.
  apply filter_In in Ht. destruct Ht as [Hin Hne].
  apply in_map_iff in Hin. destruct Hin as (piece & <- & Hp).
  pose proof (split_pieces_no_comma value) as Hall.
  rewrite Forall_forall in Hall.
  repeat split; [exact Hne | apply trim_no_comma, Hall, Hp
                | apply trim_idempotent].
Qed.

(** X10. Round trip: clean tags, shown joined by [", "] and parsed again,
    come back as they were. *)
Theorem parse_tags_of_tags_value (tags : list string) :
  Forall clean_tag tags -> parse_tags (tags_value tags) = tags.
Proof.
  unfold tags_value.
  induction tags as [|t tags IH]; intros Hall; [reflexivity|].
  inversion Hall as [|? ? Ht Hrest]; subst.
  destruct tags as [|t' tags'].
  - cbn [String.concat]. destruct Ht as (Hne & Hnc & Htrim).
    unfold parse_tags. rewrite (@split_without_comma _ Hnc).
    cbn [map filter]. now rewrite Htrim, Hne.
  - change (String.concat ", " (t :: t' :: tags'))
      with (t ++ String "," (String " " (String.concat ", " (t' :: tags'))))%string.
    rewrite (@parse_tags_clean_prefix _ _ Ht), parse_tags_after_space.
    now rewrite (IH Hrest).
Qed.

Lemma parse_tags_of_tags_value_witness :
  Forall clean_tag ["red"; "deep blue"]%string
  /\ tags_value ["red"; "deep blue"]%string = "red, deep blue"%string
  /\ parse_tags "red, deep blue" = ["red"; "deep blue"]%string.
Proof.
  assert (Hc : Forall clean_tag ["red"; "deep blue"]%string)
    by (repeat constructor).
  split; [exact Hc|]. split; [reflexivity|].
  exact (@parse_tags_of_tags_value _ Hc).
Defined.

(** X11. Parsing is stable under display: what the input shows after an
    edit parses to the tags that were stored, for any text typed. *)
Theorem parse_tags_stable (value : string) :
  parse_tags (tags_value (parse_tags value)) = parse_tags value.
Proof. apply parse_tags_of_tags_value, parse_tags_clean. Qed.

(** X12. A comma typed at the end of the text is lost: the tags, and so
    the text the input shows next, are those of the text without it. *)
Theorem parse_tags_trailing_comma (value : string) :
  parse_tags (value ++ ",") = parse_tags value
  /\ tags_value (parse_tags (value ++ ","))
     = tags_value (parse_tags value).
Proof.
  assert (H : parse_tags (value ++ ",") = parse_tags value).
  { unfold parse_tags. rewrite split_trailing_comma, map_app, filter_app.
    cbn [map filter trim trimStart trimEnd nonempty]. apply app_nil_r. }
  split; [exact H | now rewrite H].
Qed.

(** X13. An edit of the tags of asset [a] keeps the list as long as it
    was, keeps every id, name and url, leaves the tags of the assets with
    another id alone, and gives every asset with the id of [a] the parsed
    tags. *)
Theorem onTagsChange_frame (a : Asset.t) (value : string)
    (arr : list Asset.t) :
  map Asset.id (onTagsChange a value arr) = map Asset.id arr
  /\ map Asset.name (onTagsChange a value arr) = map Asset.name arr
  /\ map Asset.url (onTagsChange a value arr) = map Asset.url arr
  /\ map Asset.tags (onTagsChange a value arr)
     = map (fun it => if String.eqb (Asset.id it) (Asset.id a)
                      then parse_tags value else Asset.tags it) arr.
Proof.
  unfold onTagsChange. rewrite !map_map.
  repeat split; apply map_ext; intros it;
    destruct (String.eqb (Asset.id it) (Asset.id a)); reflexivity.
Qed.

(** ** More on the scene *)

Section SceneFacts.
Context {num : Type} `{JsNumber num}.

Lemma polygons_are_wedges (spec : MandalaSpec) (watermark : bool) :
  filter is_polygon (generate spec watermark) = wedges spec.
Proof.
  rewrite generate_shape, !filter_app.
  rewrite (forallb_filter_id is_polygon (wedges spec))
    by (apply forallb_forall; intros e He; apply (wedge_kinds spec e He)).
  unfold trailer. destruct (showWatermark spec); cbn; apply app_nil_r.
Qed.

Lemma wedge_cases (spec : MandalaSpec) (e : element num) :
  In e (wedges spec) ->
  exists i : Z,
    e = outer_wedge spec i \/ e = inner_wedge spec i
    \/ e = mirror_outer_wedge spec i \/ e = mirror_inner_wedge spec i.
Proof.
  unfold wedges, mirror_wedges. rewrite !in_app_iff, !in_map_iff.
  intros [(i & <- & _) | [(i & <- & _) | Hm]]; [exists i; tauto ..|].
  destruct (symmetry spec); [contradiction|].
  apply in_flat_map in Hm. destruct Hm as (i & _ & [<- | [<- | []]]);
    exists i; tauto.
Qed.

(** X14. Every polygon of the scene is a triangle whose first point is the
    centre of the canvas, filled with [spec.color], without stroke, at one
    of the opacities 0.8, 0.25, 0.6 and 0.15. *)
Theorem wedges_are_triangles (spec : MandalaSpec) (watermark : bool) :
  Forall (fun e =>
            exists (k : string) (p1 p2 : point num) (o : Q),
              e = polygon k [ center; p1; p2 ] (color spec) o "none"
              /\ In o [ 0.8; 0.25; 0.6; 0.15 ])
         (filter is_polygon (generate spec watermark)).
Proof.
  rewrite polygons_are_wedges. apply Forall_forall. intros e He.
  destruct (wedge_cases spec e He) as (i & [-> | [-> | [-> | ->]]]);
    do 4 eexists; (split; [reflexivity | cbn; tauto]).
Qed.


(** X16. With no segment, or a negative number of them, the scene has no
    wedge: it is the backdrop, the watermark if shown, and the centre
    dot. *)
Theorem no_segments_no_wedges (spec : MandalaSpec) (watermark : bool) :
  (segments spec <= 0)%Z ->
  generate spec watermark
  = backdrop spec
    ++ (if showWatermark spec then [ watermark_text ] else [])
    ++ [ center_dot ].
Proof.
  intros Hn. rewrite generate_shape. unfold wedges, mirror_wedges, indices.
  replace (Z.to_nat (segments spec)) with 0%nat by lia.
  cbn [seq map flat_map app]. destruct (symmetry spec); reflexivity.
Qed.

Lemma prefix2_key (a b : ascii) (i : Z) :
  prefix2 (key_of (String a (String b EmptyString)) i)
  = String a (String b EmptyString).
Proof. reflexivity. Qed.

Lemma key_of_inj (p : string) (i j : Z) : key_of p i = key_of p j -> i = j.
Proof.
  unfold key_of. intros Heq. apply string_of_Z_inj.
  induction p as [|c p IH]; cbn in Heq; injection Heq; auto.
Qed.

Lemma NoDup_indices (n : Z) : NoDup (indices n).
Proof.
  unfold indices. apply Finite.Injective_map_NoDup; [|apply seq_NoDup].
  intros a b. apply Nat2Z.inj.
Qed.

Lemma NoDup_keys (p : string) (l : list Z) :
  NoDup l -> NoDup (map (key_of p) l).
Proof.
  apply Finite.Injective_map_NoDup. intros a b. apply key_of_inj.
Qed.

Lemma NoDup_mirror_keys (l : list Z) :
  NoDup l ->
  NoDup (flat_map (fun i => [ key_of "mw" i; key_of "mi" i ]) l).
Proof.
  induction l as [|a l IH]; intros Hnd; [constructor|].
  inversion Hnd as [|? ? Hnotin Hnd']; subst.
  cbn [flat_map app].
  assert (Hfresh : forall (p : string) (k : string),
             In k (flat_map (fun i => [ key_of "mw" i; key_of "mi" i ]) l) ->
             (p = "mw" \/ p = "mi")%string -> k <> key_of p a).
  { intros p k Hin Hp Heq. apply in_flat_map in Hin.
    destruct Hin as (j & Hj & [<- | [<- | []]]);
      destruct Hp as [-> | ->];
      first [ apply key_of_inj in Heq; subst; contradiction
            | apply (f_equal prefix2) in Heq; discriminate ]. }
  constructor; [|constructor; [|now apply IH]].
  - intros [Heq | Hin].
    + apply (f_equal prefix2) in Heq. discriminate.
    + exact (Hfresh "mw"%string _ Hin (or_introl eq_refl) eq_refl).
  - intros Hin. exact (Hfresh "mi"%string _ Hin (or_intror eq_refl) eq_refl).
Qed.

Lemma wedge_keys (spec : MandalaSpec) :
  map element_key (wedges spec)
  = map Some
      (map (key_of "ow") (indices (segments spec))
       ++ map (key_of "iw") (indices (segments spec))
       ++ match symmetry spec with
          | mirror =>
              flat_map (fun i => [ key_of "mw" i; key_of "mi" i ])
                       (indices (segments spec))
          | radial => []
          end).
Proof.
  unfold wedges, mirror_wedges. rewrite !map_app, !map_map.
  f_equal. f_equal.
  destruct (symmetry spec); [reflexivity|].
  induction (indices (segments spec)) as [|a l IH]; [reflexivity|].
  cbn [flat_map app map]. now rewrite IH.
Qed.

(** X17. The keys of the polygons of a scene are pairwise distinct, within
    each of the three arrays and across them. *)
Theorem wedge_keys_distinct (spec : MandalaSpec) (watermark : bool) :
  NoDup (map element_key (filter is_polygon (generate spec watermark))).
Proof.
  rewrite polygons_are_wedges, wedge_keys.
  apply Finite.Injective_map_NoDup; [intros a b [= ->]; reflexivity|].
  pose proof (NoDup_indices (segments spec)) as Hidx.
  assert (Hpre : forall (p k : string) (l : list Z),
             In k (map (key_of p) l) -> exists i, k = key_of p i).
  { intros p k l Hin. apply in_map_iff in Hin.
    destruct Hin as (i & <- & _). now exists i. }
  assert (Hmir : forall k : string,
             In k match symmetry spec with
                  | mirror =>
                      flat_map (fun i => [ key_of "mw" i; key_of "mi" i ])
                               (indices (segments spec))
                  | radial => []
                  end ->
             (prefix2 k = "mw" \/ prefix2 k = "mi")%string).
  { intros k Hin. destruct (symmetry spec); [contradiction|].
    apply in_flat_map in Hin. destruct Hin as (i & _ & [<- | [<- | []]]);
      [now left | now right]. }
  apply NoDup_app; [now apply NoDup_keys | |].
  - apply NoDup_app; [now apply NoDup_keys | |].
    + destruct (symmetry spec); [constructor | now apply NoDup_mirror_keys].
    + intros k Hk Hm. apply Hpre in Hk. destruct Hk as (i & ->).
      destruct (Hmir _ Hm) as [E | E]; discriminate E.
  - intros k Hk Hrest. apply Hpre in Hk. destruct Hk as (i & ->).
    apply in_app_iff in Hrest. destruct Hrest as [Hi | Hm].
    + apply Hpre in Hi. destruct Hi as (j & Heq).
      apply (f_equal prefix2) in Heq. discriminate.
    + destruct (Hmir _ Hm) as [E | E]; discriminate E.
Qed.
End SceneFacts.

Lemma checkout_click_once_witness :
  fst (click_checkout state_b) = false
  /\ snd (click_checkout state_b) = state_b
  /\ fst (click_checkout (set_checkoutState state_b None)) = true
  /\ click_checkout (snd (click_checkout (set_checkoutState state_b None)))
     = (false, snd (click_checkout (set_checkoutState state_b None))).
Proof.
  split; [reflexivity|].
  split; [exact (proj1 (proj2 (checkout_click_once state_b)) eq_refl)|].
  split.
  - apply (proj1 (checkout_click_once (set_checkoutState state_b None))).
    split; [discriminate | reflexivity].
  - exact (proj2 (proj2 (checkout_click_once
                           (set_checkoutState state_b None)))).
Defined.

(** ** [clamp] in general *)

(** X1. With [min <= max], [clamp] returns a value in [[min, max]], returns
    its argument when that is already in range, is monotone, and clamping
    twice is clamping once. With [max < min] it returns [min] whatever the
    argument. *)
Theorem clamp_in_general (n m min max : Z) :
  ((min <= max)%Z ->
     (min <= clamp n min max <= max)%Z
     /\ ((min <= n <= max)%Z -> clamp n min max = n)
     /\ ((n <= m)%Z -> (clamp n min max <= clamp m min max)%Z)
     /\ clamp (clamp n min max) min max = clamp n min max)
  /\ ((max < min)%Z -> clamp n min max = min).
Proof. unfold clamp. repeat split; lia. Qed.

Lemma clamp_in_general_witness :
  (3 <= clamp 100 3 48 <= 48)%Z
  /\ clamp 12 3 48 = 12%Z
  /\ clamp (clamp (-7) 3 48) 3 48 = clamp (-7) 3 48
  /\ clamp 20 48 3 = 48%Z.
Proof.
  destruct (clamp_in_general 100 100 3 48) as [H1 _].
  destruct (H1 ltac:(lia)) as (Hr & _).
  destruct (clamp_in_general 12 12 3 48) as [H2 _].
  destruct (H2 ltac:(lia)) as (_ & Hid & _).
  destruct (clamp_in_general (-7) (-7) 3 48) as [H3 _].
  destruct (H3 ltac:(lia)) as (_ & _ & _ & Hidem).
  destruct (clamp_in_general 20 20 48 3) as [_ H4].
  split; [exact Hr|]. split; [apply Hid; lia|].
  split; [exact Hidem | apply H4; lia].
Defined.

(** ** More on the exporter *)

Lemma string_of_uint_inj (n n' : nat) :
  NilZero.string_of_uint (Nat.to_uint n)
  = NilZero.string_of_uint (Nat.to_uint n') -> n = n'.
Proof.
  intros Heq.
  rewrite <- (DecimalNat.Unsigned.of_to n), <- (DecimalNat.Unsigned.of_to n').
  assert (Hu : forall d : Decimal.uint,
             exists d' : Decimal.uint,
               NilZero.uint_of_string (NilZero.string_of_uint d) = Some d'
               /\ Nat.of_uint d' = Nat.of_uint d).
  { intros d. destruct d; try (eexists; split; [apply NilZero.usu|];
                                [discriminate | reflexivity]).
    exists Decimal.zero. split; reflexivity. }
  destruct (Hu (Nat.to_uint n)) as (d & Hd & <-).
  destruct (Hu (Nat.to_uint n')) as (d' & Hd' & <-).
  rewrite Heq, Hd' in Hd. now injection Hd as ->.
Qed.

Lemma url_of_inj (n n' : nat) : url_of n = url_of n' -> n = n'.
Proof.
  unfold url_of. intros Heq. cbn in Heq. injection Heq as Heq.
  now apply string_of_uint_inj.
Qed.

Lemma lookup_url_other (u url : string) (l : list (string * Blob)) :
  u <> url ->
  lookup_url u (filter (fun e => negb (String.eqb (fst e) url)) l)
  = lookup_url u l.
Proof.
  intros Hne. induction l as [|[v b] l IH]; [reflexivity|].
  cbn [filter fst lookup_url].
  destruct (String.eqb_spec v url) as [->|Hv]; cbn [negb].
  - destruct (String.eqb_spec url u) as [->|_]; [contradiction | exact IH].
  - cbn [lookup_url]. now rewrite IH.
Qed.

Section ExportMore.
Variable serializeToString : node -> string.
Variable click_raises : Anchor -> bool.

(** X22. An export whose click returns asks for exactly one more download,
    under the name [mandala.svg], takes the next object URL, and neither
    revokes nor creates any other object URL. *)
Theorem export_frame (el : node) (w : World) :
  let url := url_of (next_url w) in
  let a := {| href := url; download := "mandala.svg" |} in
  let w' := snd (exportSVG serializeToString click_raises (Some el) w) in
  click_raises a = false ->
  downloads w' = downloads w ++ [ a ]
  /\ next_url w' = S (next_url w)
  /\ (forall u : string,
        u <> url -> lookup_url u (objectURLs w') = lookup_url u (objectURLs w)).
Proof.
  cbv zeta. intros Hc. rewrite exportSVG_run. cbv zeta. rewrite Hc.
  cbn [snd downloads next_url objectURLs].
  repeat split. intros u Hu.
  rewrite lookup_url_other by exact Hu.
  cbn [lookup_url]. destruct (String.eqb_spec (url_of (next_url w)) u);
    [congruence | reflexivity].
Qed.

(** X23. Two exports in a row, both with a click that returns, ask for two
    downloads named [mandala.svg] under two different object URLs, and
    leave neither of the two URLs live. *)
Theorem export_twice (el1 el2 : node) (w : World) :
  let u1 := url_of (next_url w) in
  let u2 := url_of (S (next_url w)) in
  let a1 := {| href := u1; download := "mandala.svg" |} in
  let a2 := {| href := u2; download := "mandala.svg" |} in
  let w1 := snd (exportSVG serializeToString click_raises (Some el1) w) in
  let w2 := snd (exportSVG serializeToString click_raises (Some el2) w1) in
  click_raises a1 = false -> click_raises a2 = false ->
  downloads w2 = downloads w ++ [ a1; a2 ]
  /\ u1 <> u2
  /\ lookup_url u1 (objectURLs w2) = None
  /\ lookup_url u2 (objectURLs w2) = None.
Proof.
  cbv zeta. intros H1 H2.
  assert (Hne : url_of (next_url w) <> url_of (S (next_url w)))
    by (intros E; apply url_of_inj in E; lia).
  rewrite (exportSVG_run serializeToString click_raises el1 w). cbv zeta.
  rewrite H1. cbn [snd].
  rewrite exportSVG_run. cbv zeta. cbn [next_url]. rewrite H2.
  cbn [snd downloads objectURLs]. rewrite <- app_assoc.
  split; [reflexivity|]. split; [exact Hne|]. split.
  - rewrite lookup_url_other by exact Hne.
    cbn [lookup_url]. destruct (String.eqb_spec (url_of (S (next_url w)))
                                  (url_of (next_url w))) as [E|_];
      [now symmetry in E | apply lookup_url_filter].
  - apply lookup_url_filter.
Qed.
End ExportMore.

Lemma export_frame_witness :
  downloads (snd (exportSVG (fun _ => "<svg/>"%string) (fun _ => false)
                    (Some (mounted_svg [])) empty_world))
  = [ {| href := "blob:0"; download := "mandala.svg" |} ]
  /\ next_url (snd (exportSVG (fun _ => "<svg/>"%string) (fun _ => false)
                      (Some (mounted_svg [])) empty_world)) = 1%nat.
Proof.
  destruct (@export_frame (fun _ => "<svg/>"%string) (fun _ => false)
              (mounted_svg []) empty_world eq_refl) as (Hd & Hn & _).
  split; [exact Hd | exact Hn].
Defined.

Lemma export_twice_witness :
  downloads
    (snd (exportSVG (fun _ => "<svg/>"%string) (fun _ => false)
            (Some (mounted_svg []))
            (snd (exportSVG (fun _ => "<svg/>"%string) (fun _ => false)
                    (Some (mounted_svg [])) empty_world))))
  = [ {| href := "blob:0"; download := "mandala.svg" |};
      {| href := "blob:1"; download := "mandala.svg" |} ]
  /\ "blob:0"%string <> "blob:1"%string.
Proof.
  destruct (@export_twice (fun _ => "<svg/>"%string) (fun _ => false)
              (mounted_svg []) (mounted_svg []) empty_world eq_refl eq_refl)
    as (Hd & Hne & _).
  split; [exact Hd | exact Hne].
Defined.

(** X24. The exported root does not depend on the tag, the namespace or
    the attributes of the mounted element, only on its children; and for
    the element the builder mounts, the root has a single child, the [<g>],
    which still holds the inner [<svg>] with the canvas children. *)
Theorem export_keeps_wrappers (ns t ns' t' : string)
    (attrs attrs' : list (string * string)) (cs kids : list node) :
  export_document (Element ns t attrs cs)
  = export_document (Element ns' t' attrs' cs)
  /\ exists inner_attrs : list (string * string),
       childNodes_of (export_document (mounted_svg kids))
       = [ Element SVG_NS "g" []
             [ Element SVG_NS "svg" inner_attrs kids ] ].
Proof.
  rewrite !export_document_root. split; [reflexivity|].
  eexists. reflexivity.
Qed.

(** ** Amounts *)

Lemma string_of_Z_opp (z : Z) :
  (z < 0)%Z -> string_of_Z z = String "-" (string_of_Z (- z)).
Proof. destruct z as [|p|p]; intros Hz; [lia | lia | reflexivity]. Qed.

(** X25. A whole amount below 10^21 in absolute value is shown with a
    dollar sign, its decimal digits and [.00]. *)
Theorem currency_of_integer (z : Z) :
  (Z.abs z < 10 ^ 21)%Z ->
  currency (inject_Z z) = Some (String "$" (string_of_Z z ++ ".00")).
Proof.
  intros Hz. unfold currency, toFixed2.
  assert (Habs : Qabs (inject_Z z) = inject_Z (Z.abs z)) by reflexivity.
  rewrite Habs.
  assert (Hbig : Qle_bool (inject_Z (10 ^ 21)) (inject_Z (Z.abs z)) = false).
  { unfold Qle_bool, inject_Z. cbn [Qnum Qden]. apply Z.leb_gt. lia. }
  rewrite Hbig.
  assert (Hn : Qfloor (inject_Z (Z.abs z) * 100 + (1 # 2))
               = (100 * Z.abs z)%Z).
  { unfold Qfloor, Qplus, Qmult, inject_Z. cbn [Qnum Qden].
    change (Z.pos (1 * 1 * 2)) with 2%Z. change (Z.pos (1 * 1)) with 1%Z.
    symmetry. apply Z.div_unique with (r := 1%Z); lia. }
  rewrite Hn.
  replace (100 * Z.abs z / 100)%Z with (Z.abs z)
    by (symmetry; rewrite Z.mul_comm; apply Z.div_mul; lia).
  replace ((100 * Z.abs z) mod 100)%Z with 0%Z
    by (symmetry; rewrite Z.mul_comm; apply Z.mod_mul; lia).
  cbn [option_map two_digits Z.ltb Z.compare].
  unfold Qle_bool, inject_Z. cbn [Qnum Qden].
  destruct (Z.leb_spec (0 * 1) (z * 1)) as [Hpos|Hneg].
  - rewrite Z.abs_eq by lia. reflexivity.
  - rewrite Z.abs_neq by lia. rewrite (@string_of_Z_opp z) by lia.
    reflexivity.
Qed.

Lemma currency_of_integer_witness :
  (Z.abs 39 < 10 ^ 21)%Z
  /\ currency 39 = Some "$39.00"%string
  /\ currency (cartTotal (cart state_b)) = Some "$78.00"%string.
Proof.
  assert (H39 : (Z.abs 39 < 10 ^ 21)%Z) by (vm_compute; reflexivity).
  split; [exact H39|]. split.
  - exact (currency_of_integer 39 H39).
  - reflexivity.
Defined.

Lemma no_segments_no_wedges_witness :
  (segments (spec_of_segments 0) <= 0)%Z
  /\ generate (num:=term) (spec_of_segments 0) false
     = backdrop (spec_of_segments 0) ++ [ center_dot ].
Proof.
  assert (H0 : (segments (spec_of_segments 0) <= 0)%Z) by (simpl; lia).
  split; [exact H0|].
  exact (@no_segments_no_wedges term _ (spec_of_segments 0) false H0).
Defined.
